(** * github-repo-organizer: the list reorganizer and its navigation monitor

    A shallow embedding of the content script: the string functions it calls
    ([split], [substring], [trim], [toUpperCase], [includes]), the plain
    object it uses as a map from prefix to nodes, the readiness probe, the
    extraction, the grouping, the rewrite of the list, and the [checkPage]
    monitor with its two flags.

    Strings are sequences of code units; [ascii] stands for the code units
    below 256 (repository names are ASCII).  A call either returns or throws,
    so the functions that can throw return a [Completion].  The document is
    the list view: a container, found or not, whose items are [li] elements
    with at most one title span each.  Nodes are handles, and moving a node
    takes it out of the place it had. *)

From Stdlib Require Import List String Ascii Bool Arith NArith Lia Permutation.
Import ListNotations.

(** ** Completions: a call returns normally or throws *)

Inductive Exception : Type :=
| TypeError.

Inductive Completion (A : Type) : Type :=
| Normal (a : A)
| Throw (e : Exception).

Arguments Normal {A} a.
Arguments Throw {A} e.

Definition bind {A B : Type} (c : Completion A) (k : A -> Completion B) : Completion B :=
  match c with
  | Normal a => k a
  | Throw e => Throw e
  end.

Notation "x <- c ;; k" := (bind c (fun x => k))
  (at level 61, c at next level, right associativity).

(** ** Strings of the host language *)

Module JS.

(** [s.split(sep)] for a separator of one code unit: never the empty array. *)
Fixpoint split (sep : ascii) (s : string) : list string :=
  match s with
  | EmptyString => [EmptyString]
  | String c s' =>
      if Ascii.eqb c sep then EmptyString :: split sep s'
      else match split sep s' with
           | piece :: rest => String c piece :: rest
           | [] => [String c EmptyString]
           end
  end.

(** [s.substring(start)]: the code units from [start] on, empty past the end. *)
Fixpoint substring (start : nat) (s : string) : string :=
  match start, s with
  | O, _ => s
  | S n, String _ s' => substring n s'
  | S _, EmptyString => EmptyString
  end.

(** White space and line terminators among the code units below 256. *)
Definition isWhiteSpace (c : ascii) : bool :=
  let n := nat_of_ascii c in
  ((9 <=? n) && (n <=? 13)) || (n =? 32) || (n =? 160).

Fixpoint trimStart (s : string) : string :=
  match s with
  | EmptyString => EmptyString
  | String c s' => if isWhiteSpace c then trimStart s' else s
  end.

Fixpoint trimEnd (s : string) : string :=
  match s with
  | EmptyString => EmptyString
  | String c s' =>
      match trimEnd s' with
      | EmptyString => if isWhiteSpace c then EmptyString else String c EmptyString
      | t => String c t
      end
  end.

(** [s.trim()] *)
Definition trim (s : string) : string := trimEnd (trimStart s).

Definition upper (c : ascii) : ascii :=
  let n := nat_of_ascii c in
  if (97 <=? n) && (n <=? 122) then ascii_of_nat (n - 32) else c.

(** [s.toUpperCase()] on the letters a..z; the other code units are kept. *)
Fixpoint toUpperCase (s : string) : string :=
  match s with
  | EmptyString => EmptyString
  | String c s' => String (upper c) (toUpperCase s')
  end.

(** [s.includes(t)] *)
Fixpoint includes (s t : string) : bool :=
  String.prefix t s ||
  match s with
  | EmptyString => false
  | String _ s' => includes s' t
  end.

(** Truthiness of a string: only the empty string is falsy. *)
Definition truthy (s : string) : bool :=
  match s with
  | EmptyString => false
  | String _ _ => true
  end.

End JS.

(** The delimiter of the grouping. *)
Definition delimiter : ascii := "-"%char.

(** ** The document, as far as the script looks at it

    The list view is the [ul] found by [getRepositoriesContainer]; its [li]
    items are named by handles.  [titleSpans] gives, for the [li] of handle
    [n], the [textContent] of the span that [.//div[1]/h4/a/span] finds in
    it ([None]: no such span).  The item shape is the one of the list view,
    one title span per item, so [.//h4/a/span] from the container finds the
    same spans, in the order of the items. *)

Definition Node : Type := nat.

Inductive Display : Type :=
| none
| block.

Inductive Element : Type :=
| Li (li : Node)
| MenuContainer (menuTitle : string) (display : Display) (menuContent : list Node).

Record Document : Type := mkDocument {
  titleSpans : list (option string);
  listView : option (list Element)
}.

(** A page as the host renders it: one [li] per repository under the [ul]. *)
Definition page (items : list (option string)) : Document :=
  {| titleSpans := items; listView := Some (map Li (seq 0 (List.length items))) |}.

(** The same tree while the list container is not there yet. *)
Definition loading (items : list (option string)) : Document :=
  {| titleSpans := items; listView := None |}.

(** [container.querySelectorAll('li')]: the items below it, in document order. *)
Definition querySelectorAll_li (container : list Element) : list Node :=
  flat_map (fun e => match e with
                     | Li n => [n]
                     | MenuContainer _ _ content => content
                     end) container.

(** The span [.//div[1]/h4/a/span] of an item, through its text. *)
Definition repoTitleNode (d : Document) (item : Node) : option string :=
  match nth_error (titleSpans d) item with
  | Some (Some text) => Some text
  | _ => None
  end.

(** [repoTitleNode.textContent = text] *)
Fixpoint setTextContent (spans : list (option string)) (item : Node) (text : string)
  : list (option string) :=
  match spans, item with
  | [], _ => []
  | Some _ :: rest, O => Some text :: rest
  | None :: rest, O => None :: rest
  | s :: rest, S n => s :: setTextContent rest n text
  end.

Definition getRepositoriesContainer (d : Document) : option (list Element) :=
  listView d.

Definition is_document_ready (d : Document) : bool :=
  match getRepositoriesContainer d with
  | None => false
  | Some repoListContainer =>
      let repoItems := querySelectorAll_li repoListContainer in
      match repoItems with
      | [] => false
      | _ =>
          forallb (fun item =>
                     match repoTitleNode d item with
                     | None => false
                     | Some text => JS.truthy (JS.trim text)
                     end) repoItems
      end
  end.

Record RepoData : Type := mkRepoData {
  node : Node;
  title : string
}.

Definition getRepositoriesData (d : Document) (repoListContainer : list Element)
  : list RepoData :=
  flat_map (fun n => match repoTitleNode d n with
                     | Some text => [{| node := n; title := JS.trim text |}]
                     | None => []
                     end) (querySelectorAll_li repoListContainer).

(** ** The object used as a map from prefix to nodes *)

(** Own properties in creation order. *)
Definition Groups : Type := list (string * list Node).

(** What every plain object inherits from [Object.prototype]: the name, and
    the [length] of the function found there ([__proto__] gives the prototype
    object itself, which has none). *)
Definition Object_prototype : list (string * option nat) :=
  [("constructor", Some 1); ("__defineGetter__", Some 2);
   ("__defineSetter__", Some 2); ("hasOwnProperty", Some 1);
   ("__lookupGetter__", Some 1); ("__lookupSetter__", Some 1);
   ("isPrototypeOf", Some 1); ("propertyIsEnumerable", Some 1);
   ("toString", Some 0); ("valueOf", Some 0); ("__proto__", None);
   ("toLocaleString", Some 0)]%string.

Fixpoint lookup {A : Type} (key : string) (l : list (string * A)) : option A :=
  match l with
  | [] => None
  | (k, a) :: rest => if String.eqb k key then Some a else lookup key rest
  end.

Inductive Value : Type :=
| Undefined
| Array (nodes : list Node)
| Inherited (len : option nat).

(** [groups[key]]: the own property, else what the prototype has. *)
Definition get (groups : Groups) (key : string) : Value :=
  match lookup key groups with
  | Some nodes => Array nodes
  | None =>
      match lookup key Object_prototype with
      | Some len => Inherited len
      | None => Undefined
      end
  end.

(** Arrays, functions and objects are truthy. *)
Definition truthy (v : Value) : bool :=
  match v with
  | Undefined => false
  | _ => true
  end.

(** Writing an own property: in place when it exists, else created last. *)
Fixpoint set (groups : Groups) (key : string) (nodes : list Node) : Groups :=
  match groups with
  | [] => [(key, nodes)]
  | (k, old) :: rest =>
      if String.eqb k key then (k, nodes) :: rest
      else (k, old) :: set rest key nodes
  end.

(** [value.push(node)] where [value] is [groups[key]]: only arrays have it. *)
Definition push (groups : Groups) (key : string) (n : Node) : Completion Groups :=
  match get groups key with
  | Array nodes => Normal (set groups key (nodes ++ [n]))
  | _ => Throw TypeError
  end.

(** [array.reduce(f, init)], stopped by the first throw. *)
Fixpoint reduce {A B : Type} (f : B -> A -> Completion B) (l : list A) (init : B)
  : Completion B :=
  match l with
  | [] => Normal init
  | a :: rest => acc <- f init a ;; reduce f rest acc
  end.

(** [const [prefix] = title.split('-')] *)
Definition prefixOf (title : string) : string :=
  hd EmptyString (JS.split delimiter title).

(** The function given to [reduce]. *)
Definition reducer (groups : Groups) (r : RepoData) : Completion Groups :=
  let prefix := prefixOf (title r) in
  let groups :=
    if negb (truthy (get groups prefix)) then set groups prefix [] else groups in
  push groups prefix (node r).

Definition groupRepositoriesByPrefix (repoData : list RepoData) : Completion Groups :=
  reduce reducer repoData [].

(** ** Enumeration of the groups: [Object.entries]

    Keys that are array indices (canonical decimal numerals below 2^32 - 1)
    come first, in ascending numeric order; the other keys follow in creation
    order. *)

Definition isDigit (c : ascii) : bool :=
  let n := nat_of_ascii c in (48 <=? n) && (n <=? 57).

Fixpoint numeral (s : string) (acc : N) : option N :=
  match s with
  | EmptyString => Some acc
  | String c s' =>
      if isDigit c then numeral s' (acc * 10 + N.of_nat (nat_of_ascii c - 48))%N
      else None
  end.

Definition arrayIndex (key : string) : option N :=
  match key with
  | EmptyString => None
  | String c rest =>
      if Ascii.eqb c "0"%char && JS.truthy rest then None
      else match numeral key 0%N with
           | Some v => if (v <? 4294967295)%N then Some v else None
           | None => None
           end
  end.

Definition isArrayIndex (key : string) : bool :=
  match arrayIndex key with
  | Some _ => true
  | None => false
  end.

Definition Entry : Type := (string * list Node)%type.

Fixpoint insertIndexed (i : N) (e : Entry) (sorted : list (N * Entry)) : list (N * Entry) :=
  match sorted with
  | [] => [(i, e)]
  | (j, e') :: rest =>
      if (i <=? j)%N then (i, e) :: sorted else (j, e') :: insertIndexed i e rest
  end.

Definition indexed (groups : Groups) : list (N * Entry) :=
  flat_map (fun e => match arrayIndex (fst e) with
                     | Some i => [(i, e)]
                     | None => []
                     end) groups.

Definition Object_entries (groups : Groups) : list Entry :=
  map snd (fold_right (fun ie sorted => insertIndexed (fst ie) (snd ie) sorted)
                      [] (indexed groups))
  ++ filter (fun e => negb (isArrayIndex (fst e))) groups.

(** ** The rewrite of the list *)

(** Taking an item out of wherever it hangs below the container. *)
Definition detach (n : Node) (container : list Element) : list Element :=
  flat_map (fun e => match e with
                     | Li m => if Nat.eqb m n then [] else [e]
                     | MenuContainer t disp content =>
                         [MenuContainer t disp (List.remove Nat.eq_dec n content)]
                     end) container.

(** [repoListContainer.appendChild(node)]: a node has one parent, so it
    leaves the place it had. *)
Definition appendChild (container : list Element) (n : Node) : list Element :=
  detach n container ++ [Li n].

(** The state the rewrite works on: the title spans and the children of the
    list container. *)
Definition Tree : Type := (list (option string) * list Element)%type.

(** [menuContent.appendChild(node)], for a [menuContent] not yet in the
    document. *)
Definition moveInto (st : list Node * list Element) (n : Node) : list Node * list Element :=
  (List.remove Nat.eq_dec n (fst st) ++ [n], detach n (snd st)).

(** Removing the prefix in one item of the menu content. *)
Definition stripPrefix (prefix : string) (spans : list (option string)) (item : Node)
  : list (option string) :=
  match nth_error spans item with
  | Some (Some text) =>
      let title := JS.trim text in
      setTextContent spans item (JS.substring (String.length prefix + 1) title)
  | _ => spans
  end.

(** The body of the [forEach] over the entries. *)
Definition createMenu (t : Tree) (entry : Entry) : Tree :=
  let '(prefix, nodes) := entry in
  if List.length nodes <? 2 then t
  else
    let '(spans, container) := t in
    let menuTitle := JS.toUpperCase prefix in
    let '(menuContent, container) := fold_left moveInto nodes ([], container) in
    let spans := fold_left (stripPrefix prefix) menuContent spans in
    (spans, MenuContainer menuTitle none menuContent :: container).

Definition createCollapsibleMenu (repoGroups : Groups) (t : Tree) : Tree :=
  fold_left createMenu (Object_entries repoGroups) t.


(** [value.length < 2] *)
Definition lengthBelow2 (v : Value) : Completion bool :=
  match v with
  | Array nodes => Normal (List.length nodes <? 2)
  | Inherited (Some len) => Normal (len <? 2)
  | Inherited None => Normal false
  | Undefined => Throw TypeError
  end.

(** [array.filter(p)] for a predicate that may throw. *)
Fixpoint filterC {A : Type} (p : A -> Completion bool) (l : list A) : Completion (list A) :=
  match l with
  | [] => Normal []
  | a :: rest =>
      b <- p a ;;
      kept <- filterC p rest ;;
      Normal (if b then a :: kept else kept)
  end.

Definition processRepositories (d : Document) : Completion Document :=
  match getRepositoriesContainer d with
  | None => Normal d
  | Some repoListContainer =>
      let repoData := getRepositoriesData d repoListContainer in
      repoGroups <- groupRepositoriesByPrefix repoData ;;
      orphans <- filterC (fun r => lengthBelow2 (get repoGroups (prefixOf (title r))))
                         repoData ;;
      let orphanNodes := map node orphans in
      let container := fold_left appendChild orphanNodes [] in
      let '(spans, container) := createCollapsibleMenu repoGroups (titleSpans d, container) in
      Normal {| titleSpans := spans; listView := Some container |}
  end.

(** ** The navigation monitor

    The last revision polls [checkPage] every 100 ms.  The revision before
    it, with the [locationchange] and [popstate] listeners, has the same
    functions up to [processRepositories] and no flags. *)

Record ViewState : Type := mkViewState {
  isOnRepositoriesPage : bool;
  hasProcessedRepositories : bool
}.

Definition initialState : ViewState :=
  {| isOnRepositoriesPage := false; hasProcessedRepositories := false |}.

(** What one tick of the timer finds: the location and the document. *)
Record Window : Type := mkWindow {
  href : string;
  document : Document
}.

Inductive Outcome : Type :=
| Idle
| Processed (d : Document)
| Threw (e : Exception).

(** One call of [checkPage]; a throw of the pipeline leaves the flags as
    they are at that point. *)
Definition checkPage (st : ViewState) (w : Window) : ViewState * Outcome :=
  let currentUrl := href w in
  let isRepositoriesPage := JS.includes currentUrl "/repositories" in
  let st :=
    if isRepositoriesPage && negb (isOnRepositoriesPage st) then
      {| isOnRepositoriesPage := true; hasProcessedRepositories := false |}
    else if negb isRepositoriesPage && isOnRepositoriesPage st then
      {| isOnRepositoriesPage := false;
         hasProcessedRepositories := hasProcessedRepositories st |}
    else st in
  if isOnRepositoriesPage st && negb (hasProcessedRepositories st)
     && is_document_ready (document w)
  then
    match processRepositories (document w) with
    | Normal d' =>
        ({| isOnRepositoriesPage := isOnRepositoriesPage st;
            hasProcessedRepositories := true |}, Processed d')
    | Throw e => (st, Threw e)
    end
  else (st, Idle).

(** [setInterval(checkPage, 100)] over the windows the ticks find. *)
Fixpoint startChecking (st : ViewState) (ticks : list Window) : ViewState * list Outcome :=
  match ticks with
  | [] => (st, [])
  | w :: rest =>
      let '(st1, o) := checkPage st w in
      let '(st2, os) := startChecking st1 rest in
      (st2, o :: os)
  end.

(** ** The first revision of the script ([content.js])

    It has no probe and no monitor, keeps the titles, and appends the menus
    after the items instead of inserting them in front. *)

Module ContentJs.

Definition createMenu (t : Tree) (entry : Entry) : Tree :=
  let '(prefix, nodes) := entry in
  if List.length nodes <? 2 then t
  else
    let '(spans, container) := t in
    let menuTitle := JS.toUpperCase prefix in
    let '(menuContent, container) := fold_left moveInto nodes ([], container) in
    (spans, container ++ [MenuContainer menuTitle none menuContent]).

Definition createCollapsibleMenu (repoGroups : Groups) (t : Tree) : Tree :=
  fold_left createMenu (Object_entries repoGroups) t.

Definition processRepositories (d : Document) : Completion Document :=
  match getRepositoriesContainer d with
  | None => Normal d
  | Some repoListContainer =>
      let repoData := getRepositoriesData d repoListContainer in
      repoGroups <- groupRepositoriesByPrefix repoData ;;
      orphans <- filterC (fun r => lengthBelow2 (get repoGroups (prefixOf (title r))))
                         repoData ;;
      let orphanNodes := map node orphans in
      let container := fold_left appendChild orphanNodes [] in
      let '(spans, container) := createCollapsibleMenu repoGroups (titleSpans d, container) in
      Normal {| titleSpans := spans; listView := Some container |}
  end.

End ContentJs.

(** * The vocabulary of the properties *)

(** ** Keys and groups *)

(** Whether a code unit occurs in a string. *)
Fixpoint occurs (c : ascii) (s : string) : bool :=
  match s with
  | EmptyString => false
  | String a s' => Ascii.eqb a c || occurs c s'
  end.

(** The text before the first occurrence of a code unit, in the words of
    the data model. *)
Fixpoint textBeforeFirst (c : ascii) (s : string) : string :=
  match s with
  | EmptyString => EmptyString
  | String a s' => if Ascii.eqb a c then EmptyString else String a (textBeforeFirst c s')
  end.

(** The key of a record, and the nodes of the records of one key, in the
    order of the records. *)
Definition key (r : RepoData) : string := prefixOf (title r).

Definition members (k : string) (repoData : list RepoData) : list Node :=
  map node (filter (fun r => String.eqb (key r) k) repoData).

(** The keys in the order in which they are first seen. *)
Fixpoint firstSeen (seen keys : list string) : list string :=
  match keys with
  | [] => []
  | k :: rest =>
      if existsb (String.eqb k) seen then firstSeen seen rest
      else k :: firstSeen (seen ++ [k]) rest
  end.

(** ** The rewritten list *)

(** What stripping the prefix [k] makes of a title span. *)
Definition stripped (k : string) (span : option (option string)) : option (option string) :=
  match span with
  | Some (Some text) => Some (Some (JS.substring (String.length k + 1) (JS.trim text)))
  | other => other
  end.

(** A group becomes a menu when it has two nodes or more. *)
Definition multi (e : Entry) : bool := negb (List.length (snd e) <? 2).

Definition menuOf (e : Entry) : Element :=
  MenuContainer (JS.toUpperCase (fst e)) none (snd e).

Definition stripGroup (spans : list (option string)) (e : Entry) : list (option string) :=
  fold_left (stripPrefix (fst e)) (snd e) spans.

(** The records that the rewrite keeps as items of the list. *)
Definition orphanData (R : list RepoData) : list RepoData :=
  filter (fun r => List.length (members (key r) R) <? 2) R.

Definition isMenu (e : Element) : bool :=
  match e with
  | MenuContainer _ _ _ => true
  | Li _ => false
  end.

(** The collapsible sections among the children, in their order. *)
Definition sectionsOf (children : list Element) : list Element :=
  filter isMenu children.

(** The items that are children themselves, in their order. *)
Definition itemsOf (children : list Element) : list Node :=
  flat_map (fun e => match e with
                     | Li n => [n]
                     | MenuContainer _ _ _ => []
                     end) children.

(** Every section comes before every item. *)
Definition sectionsPrecedeItems (children : list Element) : Prop :=
  forall i j t disp content n,
    nth_error children i = Some (MenuContainer t disp content) ->
    nth_error children j = Some (Li n) ->
    i < j.

(** The sections in the order in which the groups are enumerated. *)
Definition sectionsInIterationOrder (d : Document) : Prop :=
  forall c g d' children,
    listView d = Some c ->
    groupRepositoriesByPrefix (getRepositoriesData d c) = Normal g ->
    processRepositories d = Normal d' ->
    listView d' = Some children ->
    sectionsPrecedeItems children
    /\ sectionsOf children = map menuOf (filter multi (Object_entries g)).

(** ** Arrivals and runs *)

(** The target view is the one whose location matches. *)
Definition onView (w : Window) : bool := JS.includes (href w) "/repositories".

(** A tick at which the probe succeeds and the pipeline runs to its end. *)
Definition completes (w : Window) : bool :=
  is_document_ready (document w)
  && match processRepositories (document w) with
     | Normal _ => true
     | Throw _ => false
     end.

(** The number of runs of the pipeline to its end. *)
Definition runs (os : list Outcome) : nat :=
  List.length (filter (fun o => match o with Processed _ => true | _ => false end) os).

(** The ticks up to the next one off the view, and the ticks from there. *)
Fixpoint whileOn (ticks : list Window) : list Window :=
  match ticks with
  | [] => []
  | w :: rest => if onView w then w :: whileOn rest else []
  end.

Fixpoint afterOn (ticks : list Window) : list Window :=
  match ticks with
  | [] => []
  | w :: rest => if onView w then afterOn rest else ticks
  end.

(** The stays on the view: the maximal runs of consecutive ticks on it.
    Each begins with an arrival. *)
Fixpoint stays (ticks : list Window) : list (list Window) :=
  match ticks with
  | [] => []
  | w :: rest =>
      if onView w then
        match rest with
        | [] => [[w]]
        | w' :: _ =>
            if onView w' then
              match stays rest with
              | stay :: more => (w :: stay) :: more
              | [] => [[w]]
              end
            else [w] :: stays rest
        end
      else stays rest
  end.

(** The stays during which some tick completes. *)
Definition served (blocks : list (list Window)) : nat :=
  List.length (filter (existsb completes) blocks).

(** The stays are as many as the arrivals: one run for each of them. *)
Definition oncePerArrival (ticks : list Window) : Prop :=
  runs (snd (startChecking initialState ticks)) = List.length (stays ticks).

(** ** Some documents and sequences of ticks *)

(** The records of the scenario of the specification. *)
Definition scenario : Document :=
  page [Some "alpha-one"; Some "alpha-two"; Some "beta-solo";
        Some "gamma-x"; Some "gamma-y"; Some "gamma-z"]%string.

Definition scenarioData : list RepoData :=
  [mkRepoData 0 "alpha-one"; mkRepoData 1 "alpha-two"; mkRepoData 2 "beta-solo";
   mkRepoData 3 "gamma-x"; mkRepoData 4 "gamma-y"; mkRepoData 5 "gamma-z"]%string.

Definition scenarioGroups : Groups :=
  [("alpha", [0; 1]); ("beta", [2]); ("gamma", [3; 4; 5])]%string.

(** Two groups of two, and what the rewrite makes of them. *)
Definition twoMenus : Document :=
  page [Some "a-1"; Some "a-2"; Some "b-1"; Some "b-2"]%string.

(** An item whose only sibling shares its whole title as a prefix. *)
Definition bareKey : Document := page [Some "alpha"; Some "alpha-one"]%string.

(** A list with one repository named after a property of every object. *)
Definition constructorPage : Document := page [Some "constructor"]%string.

(** The sequence of the specification: arrive, ready, depart, arrive, ready. *)
Definition repositoriesUrl : string := "https://github.com/orgs/acme/repositories".
Definition peopleUrl : string := "https://github.com/orgs/acme/people".

Definition arrive : Window := mkWindow repositoriesUrl (loading []).
Definition ready : Window := mkWindow repositoriesUrl scenario.
Definition depart : Window := mkWindow peopleUrl (loading []).

(** ** The revision with the listeners

    [history.pushState] and [history.replaceState] are wrapped so that each
    call that returns also dispatches [locationchange]; that event and [popstate] each
    start an interval that polls the probe, clears itself at the first
    success and then runs the pipeline.  [window.onload] runs the pipeline
    at once.  There are no flags and the location is not read. *)

Module Listeners.

Inductive Event : Type :=
| Load (d : Document)
| PushState
| ReplaceState
| PopState
| Timer (intervalId : nat) (d : Document).

(** The intervals of the window: the next identifier and the ones running. *)
Record Timers : Type := mkTimers {
  nextId : nat;
  active : list nat
}.

Definition setInterval (t : Timers) : Timers :=
  {| nextId := S (nextId t); active := active t ++ [nextId t] |}.

Definition clearInterval (intervalId : nat) (t : Timers) : Timers :=
  {| nextId := nextId t; active := List.remove Nat.eq_dec intervalId (active t) |}.

Definition call (d : Document) : Outcome :=
  match processRepositories d with
  | Normal d' => Processed d'
  | Throw e => Threw e
  end.

(** The function given to [setInterval]. *)
Definition poll (t : Timers) (intervalId : nat) (d : Document) : Timers * Outcome :=
  if is_document_ready d then (clearInterval intervalId t, call d)
  else (t, Idle).

(** What the window does at one event; the timer of a cleared interval
    does not fire. *)
Definition dispatch (t : Timers) (e : Event) : Timers * Outcome :=
  match e with
  | Load d => (t, call d)
  | PushState | ReplaceState | PopState => (setInterval t, Idle)
  | Timer intervalId d =>
      if existsb (Nat.eqb intervalId) (active t) then poll t intervalId d
      else (t, Idle)
  end.

Fixpoint run (t : Timers) (events : list Event) : Timers * list Outcome :=
  match events with
  | [] => (t, [])
  | e :: rest =>
      let '(t1, o) := dispatch t e in
      let '(t2, os) := run t1 rest in
      (t2, o :: os)
  end.

End Listeners.

(** ** More vocabulary *)

(** A string that does not begin with white space. *)
Definition startsClean (s : string) : bool :=
  match s with
  | EmptyString => true
  | String c _ => negb (JS.isWhiteSpace c)
  end.

(** An item with a title span. *)
Definition titled (d : Document) (n : Node) : bool :=
  match repoTitleNode d n with
  | Some _ => true
  | None => false
  end.

(** A key that names a property of [Object.prototype]. *)
Definition inheritedKey (r : RepoData) : bool :=
  match lookup (key r) Object_prototype with
  | Some _ => true
  | None => false
  end.

(** The ticks of the stay that is going on at the end of a sequence. *)
Definition trailingOn (ticks : list Window) : list Window :=
  rev (whileOn (rev ticks)).

(** An outcome that is a call of the pipeline, and the number of calls. *)
Definition isCall (o : Outcome) : bool :=
  match o with
  | Idle => false
  | _ => true
  end.

Definition calls (os : list Outcome) : nat := List.length (filter isCall os).

(** The events that start an interval, the loads, and the calls that the
    timer of one interval makes. *)
Definition startsInterval (e : Listeners.Event) : bool :=
  match e with
  | Listeners.PushState | Listeners.ReplaceState | Listeners.PopState => true
  | _ => false
  end.

Definition isLoad (e : Listeners.Event) : bool :=
  match e with
  | Listeners.Load _ => true
  | _ => false
  end.

Definition callOf (intervalId : nat) (eo : Listeners.Event * Outcome) : bool :=
  match fst eo with
  | Listeners.Timer i _ => Nat.eqb i intervalId && isCall (snd eo)
  | _ => false
  end.

(** Intervals that are running have been handed out, once each. *)
Definition timersOk (t : Listeners.Timers) : Prop :=
  NoDup (Listeners.active t)
  /\ forall i, In i (Listeners.active t) -> i < Listeners.nextId t.

(** * Lemmas and theorems *)

(** ** The key of a title *)

Section Keys.

Lemma split_not_nil (sep : ascii) (s : string) : JS.split sep s <> [].
Proof.
  destruct s as [|c s]; simpl; [discriminate|].
  destruct (Ascii.eqb c sep); [discriminate|].
  destruct (JS.split sep s); discriminate.
Qed.

Lemma prefixOf_String (c : ascii) (s : string) :
  prefixOf (String c s) =
  if Ascii.eqb c delimiter then EmptyString else String c (prefixOf s).
Proof.
  unfold prefixOf; simpl.
  destruct (Ascii.eqb c delimiter); [reflexivity|].
  destruct (JS.split delimiter s) eqn:E; [|reflexivity].
  now apply split_not_nil in E.
Qed.

Lemma prefixOf_textBeforeFirst (t : string) :
  prefixOf t = textBeforeFirst delimiter t.
Proof.
  induction t as [|c t IH]; [reflexivity|].
  rewrite prefixOf_String; simpl.
  destruct (Ascii.eqb c delimiter); congruence.
Qed.

Lemma prefixOf_whole (t : string) :
  occurs delimiter t = false -> prefixOf t = t.
Proof.
  induction t as [|c t IH]; [reflexivity|]; simpl; intros H.
  apply orb_false_iff in H as [Hc Ht].
  rewrite prefixOf_String, Hc, IH; auto.
Qed.

Lemma prefixOf_before (before after : string) :
  occurs delimiter before = false ->
  prefixOf (before ++ String delimiter after)%string = before.
Proof.
  induction before as [|c b IH]; simpl; intros H.
  - rewrite prefixOf_String, Ascii.eqb_refl; reflexivity.
  - apply orb_false_iff in H as [Hc Hb].
    rewrite prefixOf_String, Hc, IH; auto.
Qed.

Lemma prefixOf_clean (t : string) : occurs delimiter (prefixOf t) = false.
Proof.
  induction t as [|c t IH]; [reflexivity|].
  rewrite prefixOf_String.
  destruct (Ascii.eqb c delimiter) eqn:E; simpl; [reflexivity|].
  now rewrite E, IH.
Qed.

Lemma prefixOf_shape (t : string) :
  t = prefixOf t \/ exists rest, t = (prefixOf t ++ String delimiter rest)%string.
Proof.
  induction t as [|c t IH]; [now left|].
  rewrite prefixOf_String.
  destruct (Ascii.eqb c delimiter) eqn:E.
  - right; exists t. apply Ascii.eqb_eq in E; subst; reflexivity.
  - destruct IH as [IH|[rest IH]].
    + left; congruence.
    + right; exists rest; simpl; congruence.
Qed.

Lemma substring_past_key (key rest : string) (c : ascii) :
  JS.substring (String.length key + 1) (key ++ String c rest)%string = rest.
Proof.
  induction key as [|a key IH]; simpl; [now destruct rest|exact IH].
Qed.

Lemma substring_of_key (key : string) :
  JS.substring (String.length key + 1) key = EmptyString.
Proof.
  induction key as [|a key IH]; simpl; auto.
Qed.

End Keys.

(** C9: the key of a title is the text before its first delimiter, and the
    whole title when it has no delimiter. *)
Theorem key_is_text_before_first_delimiter (title : string) :
  prefixOf title = textBeforeFirst delimiter title
  /\ (forall before after : string,
        title = (before ++ String delimiter after)%string ->
        occurs delimiter before = false ->
        prefixOf title = before)
  /\ (occurs delimiter title = false -> prefixOf title = title).
Proof.
  split; [apply prefixOf_textBeforeFirst|split].
  - intros before after -> H. now apply prefixOf_before.
  - apply prefixOf_whole.
Qed.

Lemma key_is_text_before_first_delimiter_witness :
  prefixOf "alpha-one-two" = "alpha"%string
  /\ prefixOf "standalone" = "standalone"%string.
Proof.
  split.
  - apply (proj1 (proj2 (key_is_text_before_first_delimiter "alpha-one-two"))
             "alpha"%string "one-two"%string); reflexivity.
  - apply (proj2 (proj2 (key_is_text_before_first_delimiter "standalone"))).
    reflexivity.
Defined.

(** ** The grouping *)

Section Grouping.

Lemma lookup_set_same (g : Groups) k v : lookup k (set g k v) = Some v.
Proof.
  induction g as [|[k' old] g IH]; simpl.
  - now rewrite String.eqb_refl.
  - destruct (String.eqb k' k) eqn:E; simpl; rewrite E; auto.
Qed.

Lemma lookup_set_other (g : Groups) k k' v :
  k' <> k -> lookup k (set g k' v) = lookup k g.
Proof.
  intros Hne. induction g as [|[k0 old] g IH]; simpl.
  - apply String.eqb_neq in Hne. now rewrite Hne.
  - destruct (String.eqb k0 k') eqn:E; simpl.
    + apply String.eqb_eq in E; subst k0.
      apply String.eqb_neq in Hne. now rewrite Hne.
    + now rewrite IH.
Qed.

Lemma set_set (g : Groups) k a b : set (set g k a) k b = set g k b.
Proof.
  induction g as [|[k0 old] g IH]; simpl.
  - now rewrite String.eqb_refl.
  - destruct (String.eqb k0 k) eqn:E; simpl; rewrite E; congruence.
Qed.

Lemma keys_set (g : Groups) k v :
  map fst (set g k v) =
  match lookup k g with
  | Some _ => map fst g
  | None => map fst g ++ [k]
  end.
Proof.
  induction g as [|[k0 old] g IH]; simpl; [reflexivity|].
  destruct (String.eqb k0 k) eqn:E; simpl; [reflexivity|].
  rewrite IH. now destruct (lookup k g).
Qed.

Lemma lookup_None_keys {A : Type} (g : list (string * A)) k :
  lookup k g = None <-> ~ In k (map fst g).
Proof.
  induction g as [|[k0 a] g IH]; simpl; [tauto|].
  destruct (String.eqb k0 k) eqn:E.
  - apply String.eqb_eq in E. split; [discriminate|]. intros H; exfalso; auto.
  - apply String.eqb_neq in E. rewrite IH. tauto.
Qed.

Lemma lookup_In {A : Type} (g : list (string * A)) k v :
  lookup k g = Some v -> In (k, v) g.
Proof.
  induction g as [|[k0 a] g IH]; simpl; [discriminate|].
  destruct (String.eqb k0 k) eqn:E.
  - apply String.eqb_eq in E. intros [= ->]. left; congruence.
  - auto.
Qed.

Lemma In_lookup {A : Type} (g : list (string * A)) k v :
  NoDup (map fst g) -> In (k, v) g -> lookup k g = Some v.
Proof.
  induction g as [|[k0 a] g IH]; simpl; [tauto|].
  intros Hnd [H|H]; inversion Hnd; subst.
  - inversion H; subst. now rewrite String.eqb_refl.
  - destruct (String.eqb k0 k) eqn:E; auto.
    apply String.eqb_eq in E; subst k0.
    exfalso. apply H2. now apply (in_map fst) in H.
Qed.

Lemma lookup_existsb (g : Groups) (k : string) :
  existsb (String.eqb k) (map fst g) =
  match lookup k g with Some _ => true | None => false end.
Proof.
  induction g as [|[k0 nodes] g IH]; [reflexivity|].
  cbn [map fst existsb lookup]. rewrite String.eqb_sym.
  destruct (String.eqb k0 k); [reflexivity|exact IH].
Qed.

(** What one step of the reduction does. *)
Lemma reducer_spec (g : Groups) (r : RepoData) :
  reducer g r =
  match lookup (key r) g with
  | Some nodes => Normal (set g (key r) (nodes ++ [node r]))
  | None =>
      match lookup (key r) Object_prototype with
      | Some _ => Throw TypeError
      | None => Normal (set g (key r) [node r])
      end
  end.
Proof.
  unfold reducer, push, get, key.
  destruct (lookup (prefixOf (title r)) g) eqn:Eg; cbn [truthy negb].
  - now rewrite Eg.
  - destruct (lookup (prefixOf (title r)) Object_prototype) eqn:Ep; cbn [truthy negb].
    + now rewrite Eg.
    + now rewrite lookup_set_same, set_set.
Qed.

Lemma members_cons (k : string) (r : RepoData) (R : list RepoData) :
  members k (r :: R) = if String.eqb (key r) k then node r :: members k R else members k R.
Proof. unfold members; simpl. now destruct (String.eqb (key r) k). Qed.

(** The groups after a reduction, key by key. *)
Lemma reduce_lookup (R : list RepoData) :
  forall g0 g, reduce reducer R g0 = Normal g ->
  forall k, lookup k g =
            match lookup k g0, members k R with
            | Some nodes, m => Some (nodes ++ m)
            | None, [] => None
            | None, m => Some m
            end.
Proof.
  induction R as [|r R IH]; simpl; intros g0 g H k.
  - inversion H; subst. destruct (lookup k g); [now rewrite app_nil_r|reflexivity].
  - rewrite reducer_spec in H. rewrite members_cons.
    destruct (lookup (key r) g0) as [nodes|] eqn:Eg.
    + simpl in H. rewrite (IH _ _ H k).
      destruct (String.eqb (key r) k) eqn:E.
      * apply String.eqb_eq in E; subst k.
        rewrite lookup_set_same, Eg, <- app_assoc. reflexivity.
      * apply String.eqb_neq in E. rewrite lookup_set_other by assumption. reflexivity.
    + destruct (lookup (key r) Object_prototype); [discriminate|].
      simpl in H. rewrite (IH _ _ H k).
      destruct (String.eqb (key r) k) eqn:E.
      * apply String.eqb_eq in E; subst k.
        rewrite lookup_set_same, Eg. reflexivity.
      * apply String.eqb_neq in E. rewrite lookup_set_other by assumption. reflexivity.
Qed.

Lemma reduce_keys_NoDup (R : list RepoData) :
  forall g0 g, reduce reducer R g0 = Normal g ->
  NoDup (map fst g0) -> NoDup (map fst g).
Proof.
  induction R as [|r R IH]; simpl; intros g0 g H Hnd.
  - now inversion H; subst.
  - rewrite reducer_spec in H.
    destruct (lookup (key r) g0) as [nodes|] eqn:Eg.
    + simpl in H. apply (IH _ _ H). now rewrite keys_set, Eg.
    + destruct (lookup (key r) Object_prototype); [discriminate|].
      simpl in H. apply (IH _ _ H). rewrite keys_set, Eg.
      apply NoDup_app; [assumption|repeat constructor; simpl; tauto|].
      intros x Hx [<-|[]]. now apply lookup_None_keys in Eg.
Qed.

(** The keys of the groups are created in the order in which the records
    show them first. *)
Lemma reduce_keys (R : list RepoData) :
  forall g0 g, reduce reducer R g0 = Normal g ->
  map fst g = map fst g0 ++ firstSeen (map fst g0) (map key R).
Proof.
  induction R as [|r R IH]; intros g0 g H.
  - inversion H; subst. cbn. now rewrite app_nil_r.
  - cbn [reduce] in H. rewrite reducer_spec in H.
    cbn [map firstSeen]. rewrite lookup_existsb.
    destruct (lookup (key r) g0) as [nodes|] eqn:Eg.
    + cbn [bind] in H. rewrite (IH _ _ H), keys_set, Eg. reflexivity.
    + destruct (lookup (key r) Object_prototype); [discriminate|].
      cbn [bind] in H. rewrite (IH _ _ H), keys_set, Eg.
      now rewrite <- app_assoc.
Qed.


Lemma set_push_perm (g : Groups) (k : string) (n : Node) :
  Permutation
    (List.concat (map snd (set g k (match lookup k g with
                               | Some nodes => nodes ++ [n]
                               | None => [n]
                               end))))
    (n :: List.concat (map snd g)).
Proof.
  induction g as [|[k0 old] g IH]; simpl; [reflexivity|].
  destruct (String.eqb k0 k) eqn:E; simpl.
  - rewrite <- app_assoc. symmetry. apply Permutation_middle.
  - rewrite IH. symmetry. apply Permutation_middle.
Qed.

Lemma reduce_perm (R : list RepoData) :
  forall g0 g, reduce reducer R g0 = Normal g ->
  Permutation (List.concat (map snd g)) (List.concat (map snd g0) ++ map node R).
Proof.
  induction R as [|r R IH]; simpl; intros g0 g H.
  - inversion H; subst. now rewrite app_nil_r.
  - rewrite reducer_spec in H.
    pose proof (set_push_perm g0 (key r) (node r)) as P.
    destruct (lookup (key r) g0) as [nodes|] eqn:Eg.
    + simpl in H. rewrite (IH _ _ H), P. apply Permutation_middle.
    + destruct (lookup (key r) Object_prototype); [discriminate|].
      simpl in H. rewrite (IH _ _ H), P. apply Permutation_middle.
Qed.

(** The reduction completes when no key is a name of the prototype. *)
Lemma reduce_normal (R : list RepoData) :
  (forall r, In r R -> lookup (key r) Object_prototype = None) ->
  forall g0, exists g, reduce reducer R g0 = Normal g.
Proof.
  induction R as [|r R IH]; intros H g0; cbn [reduce]; [eauto|].
  rewrite reducer_spec, (H r) by (now left).
  destruct (lookup (key r) g0); cbn [bind]; apply IH; intros; apply H; now right.
Qed.

(** It throws as soon as one key is such a name. *)
Lemma reduce_throw (R : list RepoData) :
  forall g0,
  (forall k, In k (map fst g0) -> lookup k Object_prototype = None) ->
  (exists r, In r R /\ lookup (key r) Object_prototype <> None) ->
  reduce reducer R g0 = Throw TypeError.
Proof.
  induction R as [|r R IH]; intros g0 Hown [r' [Hin Hr']]; [destruct Hin|].
  cbn [reduce]. rewrite reducer_spec.
  destruct (lookup (key r) g0) as [nodes|] eqn:Eg.
  - assert (Hk : lookup (key r) Object_prototype = None).
    { apply Hown. apply lookup_In in Eg. now apply (in_map fst) in Eg. }
    cbn [bind]. apply IH.
    + intros k. rewrite keys_set, Eg. apply Hown.
    + destruct Hin as [<-|Hin]; [congruence|eauto].
  - destruct (lookup (key r) Object_prototype) eqn:Ep; [reflexivity|].
    cbn [bind]. apply IH.
    + intros k. rewrite keys_set, Eg, in_app_iff.
      intros [Hk|[<-|[]]]; auto.
    + destruct Hin as [<-|Hin]; [congruence|eauto].
Qed.

Lemma groups_members (R : list RepoData) (g : Groups) :
  groupRepositoriesByPrefix R = Normal g ->
  forall k nodes, In (k, nodes) g -> nodes = members k R /\ nodes <> [].
Proof.
  intros H k nodes Hin.
  pose proof (reduce_keys_NoDup _ _ _ H (NoDup_nil _)) as Hnd.
  apply (In_lookup _ _ _ Hnd) in Hin.
  rewrite (reduce_lookup _ _ _ H k) in Hin. simpl in Hin.
  destruct (members k R); [discriminate|]. inversion Hin; subst.
  split; [reflexivity|discriminate].
Qed.

Lemma members_In (R : list RepoData) (r : RepoData) :
  In r R -> In (node r) (members (key r) R).
Proof.
  intros H. unfold members. apply in_map, filter_In.
  split; [assumption|apply String.eqb_refl].
Qed.

Lemma groups_get (R : list RepoData) (g : Groups) :
  groupRepositoriesByPrefix R = Normal g ->
  forall r, In r R -> get g (key r) = Array (members (key r) R).
Proof.
  intros H r Hin. unfold get.
  rewrite (reduce_lookup _ _ _ H (key r)). simpl.
  pose proof (members_In R r Hin) as Hm.
  destruct (members (key r) R); [destruct Hm|reflexivity].
Qed.

End Grouping.

Example scenario_extracted :
  getRepositoriesData scenario (map Li (seq 0 6)) = scenarioData.
Proof. reflexivity. Qed.

Example scenario_grouped :
  groupRepositoriesByPrefix scenarioData = Normal scenarioGroups.
Proof. reflexivity. Qed.

(** C4: the groups are a partition of the records: the keys are distinct,
    every record is in the group of its key, a group holds the records of its
    key and no others, no group is empty, and the groups together hold the
    nodes of the records, each as often as the records do. *)
Theorem grouping_is_partition (R : list RepoData) (g : Groups) :
  groupRepositoriesByPrefix R = Normal g ->
  NoDup (map fst g)
  /\ (forall r, In r R -> exists nodes, In (key r, nodes) g /\ In (node r) nodes)
  /\ (forall k nodes, In (k, nodes) g -> nodes = members k R /\ nodes <> [])
  /\ Permutation (List.concat (map snd g)) (map node R).
Proof.
  intros H. split; [|split; [|split]].
  - exact (reduce_keys_NoDup _ _ _ H (NoDup_nil _)).
  - intros r Hin. exists (members (key r) R). split; [|now apply members_In].
    apply lookup_In. pose proof (groups_get _ _ H r Hin) as G. unfold get in G.
    destruct (lookup (key r) g); [congruence|].
    destruct (lookup (key r) Object_prototype); discriminate.
  - intros k nodes Hin. exact (groups_members _ _ H k nodes Hin).
  - exact (reduce_perm _ _ _ H).
Qed.

Lemma grouping_is_partition_witness :
  groupRepositoriesByPrefix scenarioData = Normal scenarioGroups
  /\ NoDup (map fst scenarioGroups)
  /\ (forall r, In r scenarioData ->
        exists nodes, In (key r, nodes) scenarioGroups /\ In (node r) nodes)
  /\ (forall k nodes, In (k, nodes) scenarioGroups ->
        nodes = members k scenarioData /\ nodes <> [])
  /\ Permutation (List.concat (map snd scenarioGroups)) (map node scenarioData).
Proof.
  split; [reflexivity|].
  apply (grouping_is_partition scenarioData). reflexivity.
Defined.

(** C7: the members of a group are the nodes of the records of its key, in
    the order of the records, and grouping the same records again gives the
    same groups. *)
Theorem grouping_is_stable (R : list RepoData) (g : Groups) :
  groupRepositoriesByPrefix R = Normal g ->
  (forall k nodes, In (k, nodes) g -> nodes = members k R)
  /\ (forall g', groupRepositoriesByPrefix R = Normal g' ->
        g' = g /\ forall k, get g' k = get g k).
Proof.
  intros H. split.
  - intros k nodes Hin. now apply (groups_members _ _ H) in Hin.
  - intros g' H'. assert (g' = g) by congruence. subst. auto.
Qed.

Lemma grouping_is_stable_witness :
  groupRepositoriesByPrefix scenarioData = Normal scenarioGroups
  /\ (forall k nodes, In (k, nodes) scenarioGroups -> nodes = members k scenarioData)
  /\ (forall g', groupRepositoriesByPrefix scenarioData = Normal g' ->
        g' = scenarioGroups /\ forall k, get g' k = get scenarioGroups k).
Proof.
  split; [reflexivity|].
  apply (grouping_is_stable scenarioData). reflexivity.
Defined.

(** ** The enumeration of the groups *)

Section Entries.

Lemma insertIndexed_perm (i : N) (e : Entry) (l : list (N * Entry)) :
  Permutation (insertIndexed i e l) ((i, e) :: l).
Proof.
  induction l as [|[j e'] l IH]; simpl; [reflexivity|].
  destruct (i <=? j)%N; [reflexivity|].
  rewrite IH. apply perm_swap.
Qed.

Lemma sortIndexed_perm (l : list (N * Entry)) :
  Permutation
    (fold_right (fun ie sorted => insertIndexed (fst ie) (snd ie) sorted) [] l) l.
Proof.
  induction l as [|[i e] l IH]; simpl; [reflexivity|].
  rewrite insertIndexed_perm. now constructor.
Qed.

Lemma indexed_entries (g : Groups) :
  map snd (indexed g) = filter (fun e => isArrayIndex (fst e)) g.
Proof.
  unfold indexed, isArrayIndex.
  induction g as [|e g IH]; simpl; [reflexivity|].
  destruct (arrayIndex (fst e)); simpl; [f_equal|]; exact IH.
Qed.

Lemma filter_split_perm {A : Type} (p : A -> bool) (l : list A) :
  Permutation (filter p l ++ filter (fun a => negb (p a)) l) l.
Proof.
  induction l as [|a l IH]; simpl; [reflexivity|].
  destruct (p a); simpl.
  - now constructor.
  - rewrite <- Permutation_middle. now constructor.
Qed.

(** Every group is enumerated, once. *)
Lemma Object_entries_perm (g : Groups) : Permutation (Object_entries g) g.
Proof.
  unfold Object_entries.
  rewrite sortIndexed_perm, indexed_entries.
  apply filter_split_perm.
Qed.

(** Without array indices among the keys the enumeration follows the
    creation of the keys. *)
Lemma Object_entries_creation_order (g : Groups) :
  (forall e, In e g -> isArrayIndex (fst e) = false) ->
  Object_entries g = g.
Proof.
  intros H.
  assert (Hi : indexed g = []).
  { unfold indexed. induction g as [|e g IH]; [reflexivity|]. cbn [flat_map].
    pose proof (H e (or_introl eq_refl)) as He. unfold isArrayIndex in He.
    destruct (arrayIndex (fst e)); [discriminate|].
    apply IH. intros; apply H; now right. }
  unfold Object_entries. rewrite Hi. cbn [fold_right map app].
  induction g as [|e g IH]; [reflexivity|]. cbn [filter].
  rewrite (H e (or_introl eq_refl)). cbn [negb]. f_equal.
  apply IH.
  - intros; apply H; now right.
  - unfold indexed in *. cbn [flat_map] in Hi.
    now apply app_eq_nil in Hi.
Qed.

End Entries.

(** ** Moving nodes *)

Section Moves.

Lemma detach_absent (n : Node) (c : list Element) :
  ~ In n (querySelectorAll_li c) -> detach n c = c.
Proof.
  induction c as [|e c IH]; simpl; [reflexivity|].
  rewrite in_app_iff. intros H.
  unfold detach in *. cbn [flat_map].
  rewrite IH by tauto.
  destruct e as [m|t disp content]; simpl.
  - destruct (Nat.eqb_spec m n); [subst; simpl in H; tauto|reflexivity].
  - rewrite notin_remove by tauto. reflexivity.
Qed.

Lemma querySelectorAll_li_app (c c' : list Element) :
  querySelectorAll_li (c ++ c') = querySelectorAll_li c ++ querySelectorAll_li c'.
Proof. apply flat_map_app. Qed.

Lemma querySelectorAll_li_items (nodes : list Node) :
  querySelectorAll_li (map Li nodes) = nodes.
Proof.
  induction nodes as [|n nodes IH]; simpl; congruence.
Qed.

(** Appending nodes that hang nowhere below the container. *)
Lemma appendChild_fresh (nodes : list Node) :
  forall c,
  NoDup nodes ->
  (forall n, In n nodes -> ~ In n (querySelectorAll_li c)) ->
  fold_left appendChild nodes c = c ++ map Li nodes.
Proof.
  induction nodes as [|n nodes IH]; simpl; intros c Hnd Hc.
  - now rewrite app_nil_r.
  - inversion Hnd; subst.
    unfold appendChild at 2. rewrite detach_absent by auto.
    rewrite IH; [now rewrite <- app_assoc|assumption|].
    intros m Hm. rewrite querySelectorAll_li_app, in_app_iff. simpl.
    intros [H|[<-|[]]]; [apply (Hc m); auto|contradiction].
Qed.

Lemma moveInto_fresh (nodes : list Node) :
  forall acc c,
  NoDup (acc ++ nodes) ->
  (forall n, In n nodes -> ~ In n (querySelectorAll_li c)) ->
  fold_left moveInto nodes (acc, c) = (acc ++ nodes, c).
Proof.
  induction nodes as [|n nodes IH]; simpl; intros acc c Hnd Hc.
  - now rewrite app_nil_r.
  - unfold moveInto at 2. cbn [fst snd].
    rewrite detach_absent by auto.
    rewrite notin_remove.
    + rewrite IH; [now rewrite <- app_assoc| |auto].
      now rewrite <- app_assoc.
    + apply NoDup_remove_2 in Hnd. rewrite in_app_iff in Hnd. tauto.
Qed.

End Moves.

(** ** Stripping the prefix *)

Section Stripping.

Lemma NoDup_app_disjoint {A : Type} (l1 l2 : list A) :
  NoDup (l1 ++ l2) -> forall a, In a l1 -> In a l2 -> False.
Proof.
  induction l1 as [|x l1 IH]; simpl; intros Hnd a H1 H2; [assumption|].
  inversion Hnd; subst.
  destruct H1 as [->|H1]; [|eauto].
  apply H3. apply in_or_app. now right.
Qed.

Lemma setTextContent_same (spans : list (option string)) (i : Node) (text : string) :
  nth_error (setTextContent spans i text) i =
  match nth_error spans i with
  | Some (Some _) => Some (Some text)
  | other => other
  end.
Proof.
  revert i. induction spans as [|s spans IH]; intros [|i]; simpl; auto.
  - now destruct s.
  - destruct s; apply IH.
Qed.

Lemma setTextContent_other (spans : list (option string)) (i j : Node) (text : string) :
  i <> j -> nth_error (setTextContent spans i text) j = nth_error spans j.
Proof.
  revert i j. induction spans as [|s spans IH]; intros [|i] [|j] Hne; simpl; auto.
  - tauto.
  - now destruct s.
  - now destruct s.
  - destruct s; apply IH; auto.
Qed.

Lemma stripPrefix_same (k : string) (spans : list (option string)) (i : Node) :
  nth_error (stripPrefix k spans i) i = stripped k (nth_error spans i).
Proof.
  unfold stripPrefix, stripped.
  destruct (nth_error spans i) as [[text|]|] eqn:E; auto.
  now rewrite setTextContent_same, E.
Qed.

Lemma stripPrefix_other (k : string) (spans : list (option string)) (i j : Node) :
  i <> j -> nth_error (stripPrefix k spans i) j = nth_error spans j.
Proof.
  intros Hne. unfold stripPrefix.
  destruct (nth_error spans i) as [[text|]|]; auto.
  now apply setTextContent_other.
Qed.

Lemma stripGroup_other (k : string) (nodes : list Node) (j : Node) :
  forall spans, ~ In j nodes ->
  nth_error (fold_left (stripPrefix k) nodes spans) j = nth_error spans j.
Proof.
  induction nodes as [|n nodes IH]; simpl; intros spans H; [reflexivity|].
  rewrite IH by tauto. apply stripPrefix_other. tauto.
Qed.

Lemma stripGroup_member (k : string) (nodes : list Node) (j : Node) :
  forall spans, NoDup nodes -> In j nodes ->
  nth_error (fold_left (stripPrefix k) nodes spans) j = stripped k (nth_error spans j).
Proof.
  induction nodes as [|n nodes IH]; simpl; intros spans Hnd Hin; [tauto|].
  inversion Hnd; subst.
  destruct Hin as [->|Hin].
  - rewrite stripGroup_other by assumption. apply stripPrefix_same.
  - rewrite IH by assumption. f_equal. apply stripPrefix_other.
    intros ->. contradiction.
Qed.

(** Over several groups: a node of none of them keeps its span. *)
Lemma stripGroups_other (M : list Entry) (j : Node) :
  forall spans, ~ In j (List.concat (map snd M)) ->
  nth_error (fold_left stripGroup M spans) j = nth_error spans j.
Proof.
  induction M as [|[k nodes] M IH]; simpl; intros spans H; [reflexivity|].
  rewrite in_app_iff in H.
  rewrite IH by tauto. apply stripGroup_other. tauto.
Qed.

(** A node of one of them has the prefix of that group stripped, once. *)
Lemma stripGroups_member (M : list Entry) (k : string) (nodes : list Node) (j : Node) :
  forall spans, NoDup (List.concat (map snd M)) -> In (k, nodes) M -> In j nodes ->
  nth_error (fold_left stripGroup M spans) j = stripped k (nth_error spans j).
Proof.
  induction M as [|[k0 nodes0] M IH]; simpl; intros spans Hnd Hin Hj; [tauto|].
  apply NoDup_app_remove_l in Hnd as Hnd'.
  destruct Hin as [Heq|Hin].
  - inversion Heq; subst.
    rewrite stripGroups_other.
    + apply stripGroup_member; [|assumption].
      now apply NoDup_app_remove_r in Hnd.
    + intros Hc. exact (NoDup_app_disjoint _ _ Hnd j Hj Hc).
  - rewrite IH by assumption. f_equal.
    apply stripGroup_other. intros Hc.
    apply (NoDup_app_disjoint _ _ Hnd j Hc).
    apply in_concat. exists nodes. split; [|assumption].
    now apply (in_map snd) in Hin.
Qed.

End Stripping.

(** ** The rewrite, in closed form *)

Section Extraction.

Lemma createMenu_small (t : Tree) (e : Entry) :
  multi e = false -> createMenu t e = t.
Proof.
  destruct e as [k nodes]. unfold multi, createMenu. cbn [snd].
  destruct (List.length nodes <? 2); [reflexivity|discriminate].
Qed.

Lemma createMenu_fresh (spans : list (option string)) (c : list Element) (e : Entry) :
  multi e = true ->
  NoDup (snd e) ->
  (forall n, In n (snd e) -> ~ In n (querySelectorAll_li c)) ->
  createMenu (spans, c) e = (stripGroup spans e, menuOf e :: c).
Proof.
  destruct e as [k nodes]. unfold multi, createMenu, stripGroup, menuOf.
  cbn [fst snd]. intros Hm Hnd Hc.
  destruct (List.length nodes <? 2); [discriminate|].
  rewrite moveInto_fresh by assumption. reflexivity.
Qed.

Lemma createCollapsibleMenu_fresh (E : list Entry) :
  forall spans c,
  NoDup (List.concat (map snd (filter multi E))) ->
  (forall n, In n (List.concat (map snd (filter multi E))) ->
             ~ In n (querySelectorAll_li c)) ->
  fold_left createMenu E (spans, c) =
  (fold_left stripGroup (filter multi E) spans,
   rev (map menuOf (filter multi E)) ++ c).
Proof.
  induction E as [|e E IH]; intros spans c Hnd Hc; [reflexivity|].
  cbn [fold_left filter] in *.
  destruct (multi e) eqn:Em.
  - cbn [map List.concat rev fold_left] in *.
    rewrite createMenu_fresh; [|assumption|now apply NoDup_app_remove_r in Hnd|].
    + rewrite IH.
      * now rewrite <- app_assoc.
      * now apply NoDup_app_remove_l in Hnd.
      * intros n Hn. cbn [querySelectorAll_li flat_map menuOf].
        rewrite in_app_iff. intros [H|H].
        -- exact (NoDup_app_disjoint _ _ Hnd n H Hn).
        -- apply (Hc n); [|assumption]. apply in_or_app. now right.
    + intros n Hn. apply Hc. apply in_or_app. now left.
  - rewrite createMenu_small by assumption. now apply IH.
Qed.

Lemma filterC_pure {A : Type} (p : A -> Completion bool) (q : A -> bool) (l : list A) :
  (forall a, In a l -> p a = Normal (q a)) ->
  filterC p l = Normal (filter q l).
Proof.
  induction l as [|a l IH]; intros H; [reflexivity|].
  cbn [filterC filter]. rewrite (H a) by now left.
  cbn [bind]. rewrite IH by (intros; apply H; now right).
  reflexivity.
Qed.

Lemma extracted_nodes (d : Document) (c : list Element) :
  map node (getRepositoriesData d c) =
  filter (fun n => match repoTitleNode d n with Some _ => true | None => false end)
         (querySelectorAll_li c).
Proof.
  unfold getRepositoriesData.
  induction (querySelectorAll_li c) as [|n l IH]; [reflexivity|].
  cbn [flat_map filter]. rewrite map_app, IH.
  now destruct (repoTitleNode d n).
Qed.

Lemma extracted_NoDup (d : Document) (c : list Element) :
  NoDup (querySelectorAll_li c) -> NoDup (map node (getRepositoriesData d c)).
Proof.
  intros H. rewrite extracted_nodes. now apply NoDup_filter.
Qed.

(** The title of a record is the trimmed text of the span of its node. *)
Lemma extracted_title (d : Document) (c : list Element) (r : RepoData) :
  In r (getRepositoriesData d c) ->
  exists text, repoTitleNode d (node r) = Some text /\ title r = JS.trim text.
Proof.
  unfold getRepositoriesData. rewrite in_flat_map.
  intros [n [_ H]].
  destruct (repoTitleNode d n) as [text|] eqn:E; [|destruct H].
  destruct H as [<-|[]]. exists text. now split.
Qed.

Lemma NoDup_map_injective {A B : Type} (f : A -> B) (l : list A) (a a' : A) :
  NoDup (map f l) -> In a l -> In a' l -> f a = f a' -> a = a'.
Proof.
  induction l as [|x l IH]; simpl; intros Hnd Ha Ha' Hf; [tauto|].
  inversion Hnd; subst.
  destruct Ha as [->|Ha], Ha' as [->|Ha']; auto.
  - exfalso. apply H1. rewrite Hf. now apply in_map.
  - exfalso. apply H1. rewrite <- Hf. now apply in_map.
Qed.

Lemma NoDup_concat_filter (p : Entry -> bool) (E : list Entry) :
  NoDup (List.concat (map snd E)) -> NoDup (List.concat (map snd (filter p E))).
Proof.
  induction E as [|e E IH]; simpl; intros H; [assumption|].
  destruct (p e); simpl.
  - apply NoDup_app.
    + now apply NoDup_app_remove_r in H.
    + apply IH. now apply NoDup_app_remove_l in H.
    + intros a H1 H2. apply (NoDup_app_disjoint _ _ H a H1).
      rewrite in_concat in *. destruct H2 as [x [Hx Ha]].
      exists x. split; [|assumption].
      rewrite in_map_iff in *. destruct Hx as [y [<- Hy]].
      exists y. split; [reflexivity|]. now apply filter_In in Hy.
  - apply IH. now apply NoDup_app_remove_l in H.
Qed.

End Extraction.

Section Rewrite.

Variables (d : Document) (c : list Element) (g : Groups).

Hypothesis container_found : listView d = Some c.
Hypothesis items_distinct : NoDup (querySelectorAll_li c).
Hypothesis grouped : groupRepositoriesByPrefix (getRepositoriesData d c) = Normal g.

Let R := getRepositoriesData d c.

Lemma group_nodes_NoDup : NoDup (List.concat (map snd (Object_entries g))).
Proof.
  assert (P : Permutation (List.concat (map snd (Object_entries g))) (map node R)).
  { rewrite <- (reduce_perm _ _ _ grouped : Permutation _ (map node R)).
    rewrite <- !flat_map_concat_map.
    apply Permutation_flat_map, Object_entries_perm. }
  apply (Permutation_NoDup (Permutation_sym P)).
  now apply extracted_NoDup.
Qed.

Lemma entry_members (k : string) (nodes : list Node) :
  In (k, nodes) (Object_entries g) -> nodes = members k R /\ nodes <> [].
Proof.
  intros H. apply (groups_members _ _ grouped).
  exact (Permutation_in _ (Object_entries_perm g) H).
Qed.

(** A node of a group of two or more is the node of no orphan. *)
Lemma menu_nodes_not_orphans (n : Node) :
  In n (List.concat (map snd (filter multi (Object_entries g)))) ->
  ~ In n (map node (orphanData R)).
Proof.
  rewrite in_concat. intros [nodes [Hn Hin]] Ho.
  rewrite in_map_iff in Hn. destruct Hn as [[k nodes'] [Heq He]].
  cbn [snd] in Heq; subst nodes'.
  apply filter_In in He as [He Hm].
  apply entry_members in He as [He _].
  rewrite in_map_iff in Ho. destruct Ho as [r [Hr Ho]].
  apply filter_In in Ho as [HrR Hlen].
  rewrite He in Hin. unfold members in Hin.
  rewrite in_map_iff in Hin. destruct Hin as [r' [Hr' Hf]].
  apply filter_In in Hf as [Hr'R Hk]. apply String.eqb_eq in Hk.
  assert (r' = r).
  { apply (NoDup_map_injective node R); auto.
    - now apply extracted_NoDup.
    - congruence. }
  subst r'. unfold multi in Hm. cbn [snd] in Hm.
  rewrite He, <- Hk, Hlen in Hm. discriminate.
Qed.

(** The document after the rewrite. *)
Lemma processRepositories_rewrites :
  processRepositories d =
  Normal {| titleSpans :=
              fold_left stripGroup (filter multi (Object_entries g)) (titleSpans d);
            listView :=
              Some (rev (map menuOf (filter multi (Object_entries g)))
                    ++ map Li (map node (orphanData R))) |}.
Proof.
  unfold processRepositories, getRepositoriesContainer.
  rewrite container_found. fold R. unfold R at 1. rewrite grouped. cbn [bind].
  rewrite (filterC_pure _ (fun r => List.length (members (key r) R) <? 2)).
  2:{ intros r Hr. fold (key r). now rewrite (groups_get _ _ grouped r Hr). }
  cbn [bind]. fold (orphanData R).
  assert (Ho : NoDup (map node (orphanData R))).
  { assert (Hs : NoDup (map node R)) by now apply extracted_NoDup.
    clear -Hs. unfold orphanData.
    generalize (fun r => List.length (members (key r) R) <? 2).
    induction R as [|r l IH]; intros p; simpl; [constructor|].
    inversion Hs; subst.
    destruct (p r); simpl; [constructor|]; auto.
    intros Hin. apply H1. rewrite in_map_iff in *.
    destruct Hin as [x [Hx Hin]]. exists x. split; [assumption|].
    now apply filter_In in Hin. }
  rewrite appendChild_fresh; [|assumption|intros n _ []].
  cbn [app]. unfold createCollapsibleMenu.
  rewrite createCollapsibleMenu_fresh.
  - reflexivity.
  - apply NoDup_concat_filter, group_nodes_NoDup.
  - intros n Hn. rewrite querySelectorAll_li_items.
    now apply menu_nodes_not_orphans.
Qed.

End Rewrite.

(** ** The order of the children of the container *)

Section Order.

(** The items of a page as the host renders it are distinct nodes. *)
Lemma page_items_distinct (items : list (option string)) :
  NoDup (querySelectorAll_li (map Li (seq 0 (List.length items)))).
Proof. rewrite querySelectorAll_li_items. apply seq_NoDup. Qed.


Lemma sectionsOf_menus_items (M : list Entry) (l : list Node) :
  sectionsOf (map menuOf M ++ map Li l) = map menuOf M.
Proof.
  unfold sectionsOf. rewrite filter_app.
  assert (H1 : filter isMenu (map menuOf M) = map menuOf M).
  { induction M as [|e M IH]; simpl; congruence. }
  assert (H2 : filter isMenu (map Li l) = []).
  { induction l as [|n l IH]; simpl; congruence. }
  now rewrite H1, H2, app_nil_r.
Qed.

Lemma itemsOf_menus_items (M : list Entry) (l : list Node) :
  itemsOf (map menuOf M ++ map Li l) = l.
Proof.
  unfold itemsOf. rewrite flat_map_app.
  assert (H1 : flat_map (fun e => match e with Li n => [n] | MenuContainer _ _ _ => [] end)
                        (map menuOf M) = []).
  { induction M as [|e M IH]; simpl; congruence. }
  rewrite H1. simpl. induction l as [|n l IH]; simpl; congruence.
Qed.

Lemma menus_precede_items (M : list Entry) (l : list Node) :
  sectionsPrecedeItems (map menuOf M ++ map Li l).
Proof.
  intros i j t disp content n Hi Hj.
  assert (Hlen : List.length (map menuOf M) <= j).
  { destruct (Nat.le_gt_cases (List.length (map menuOf M)) j) as [H|H]; [assumption|].
    rewrite nth_error_app1 in Hj by assumption.
    rewrite nth_error_map in Hj. destruct (nth_error M j); discriminate. }
  destruct (Nat.le_gt_cases (List.length (map menuOf M)) i) as [H|H]; [|lia].
  rewrite nth_error_app2 in Hi by assumption.
  rewrite nth_error_map in Hi.
  destruct (nth_error l (i - List.length (map menuOf M))); discriminate.
Qed.

End Order.

Example twoMenus_rewritten :
  processRepositories twoMenus =
  Normal {| titleSpans := [Some "1"; Some "2"; Some "1"; Some "2"]%string;
            listView := Some [MenuContainer "B" none [2; 3];
                              MenuContainer "A" none [0; 1]] |}.
Proof. reflexivity. Qed.

(** Against C1 as stated: with the groups a and b, enumerated in this order,
    the section of b comes first. *)
Lemma sections_not_in_iteration_order : ~ sectionsInIterationOrder twoMenus.
Proof.
  intros H.
  destruct (H (map Li (seq 0 4)) [("a", [0; 1]); ("b", [2; 3])]%string
              _ _ eq_refl eq_refl twoMenus_rewritten eq_refl) as [_ Hs].
  discriminate Hs.
Qed.

(** C1, amended: after the rewrite every section comes before every item of
    the container, and the sections are in the reverse of the order in which
    [Object.entries] enumerates the groups of two or more.  The keys are
    created in the order in which the records show them first, and the
    enumeration follows it when no key is an array index. *)
Theorem sections_first_in_reverse_order (d : Document) (c : list Element) (g : Groups) :
  listView d = Some c ->
  NoDup (querySelectorAll_li c) ->
  groupRepositoriesByPrefix (getRepositoriesData d c) = Normal g ->
  exists d' children,
    processRepositories d = Normal d'
    /\ listView d' = Some children
    /\ sectionsPrecedeItems children
    /\ sectionsOf children = rev (map menuOf (filter multi (Object_entries g)))
    /\ map fst g = firstSeen [] (map key (getRepositoriesData d c))
    /\ ((forall e, In e g -> isArrayIndex (fst e) = false) -> Object_entries g = g).
Proof.
  intros Hc Hnd Hg.
  eexists. eexists.
  split; [exact (processRepositories_rewrites d c g Hc Hnd Hg)|].
  cbn [listView]. split; [reflexivity|].
  rewrite <- map_rev.
  split; [apply menus_precede_items|].
  split; [apply sectionsOf_menus_items|].
  split; [exact (reduce_keys _ _ _ Hg)|].
  apply Object_entries_creation_order.
Qed.

Lemma sections_first_in_reverse_order_witness :
  exists d' children,
    processRepositories scenario = Normal d'
    /\ listView d' = Some children
    /\ sectionsPrecedeItems children
    /\ sectionsOf children = rev (map menuOf (filter multi (Object_entries scenarioGroups)))
    /\ map fst scenarioGroups = firstSeen [] (map key scenarioData)
    /\ ((forall e, In e scenarioGroups -> isArrayIndex (fst e) = false) ->
        Object_entries scenarioGroups = scenarioGroups).
Proof.
  apply (sections_first_in_reverse_order scenario (map Li (seq 0 6)) scenarioGroups).
  - reflexivity.
  - simpl. repeat constructor; simpl; intuition lia.
  - reflexivity.
Defined.

(** Keys that are array indices are enumerated first, in numeric order,
    whatever the order of the records. *)
Example numeric_keys_enumerated_first :
  groupRepositoriesByPrefix
    [mkRepoData 0 "x-a"; mkRepoData 1 "10-a"; mkRepoData 2 "9-a"]%string
  = Normal [("x", [0]); ("10", [1]); ("9", [2])]%string
  /\ Object_entries [("x", [0]); ("10", [1]); ("9", [2])]%string
     = [("9", [2]); ("10", [1]); ("x", [0])]%string.
Proof. split; reflexivity. Qed.

Example numeric_keys_rewritten :
  processRepositories
    (page [Some " 10-a "; Some "b-1"; Some "9-c"; Some "b-2"; Some "10-d";
           Some "9"; Some "solo"]%string)
  = Normal {| titleSpans := [Some "a"; Some "1"; Some "c"; Some "2"; Some "d";
                             Some ""; Some "solo"]%string;
              listView := Some [MenuContainer "B" none [1; 3];
                                MenuContainer "10" none [0; 4];
                                MenuContainer "9" none [2; 5];
                                Li 6] |}.
Proof. reflexivity. Qed.

(** In the first revision the menus follow the items, in the order of the
    enumeration. *)
Example first_revision_appends_menus :
  ContentJs.processRepositories scenario =
  Normal {| titleSpans := titleSpans scenario;
            listView := Some [Li 2;
                              MenuContainer "ALPHA" none [0; 1];
                              MenuContainer "GAMMA" none [3; 4; 5]] |}.
Proof. reflexivity. Qed.

(** ** The titles after the rewrite *)

Section Titles.

Variables (d : Document) (c : list Element) (g : Groups).

Hypothesis items_distinct : NoDup (querySelectorAll_li c).
Hypothesis grouped : groupRepositoriesByPrefix (getRepositoriesData d c) = Normal g.

(** A key of the groups is the key of a record, so it holds no delimiter. *)
Lemma group_key_clean (K : string) (nodes : list Node) :
  In (K, nodes) g -> occurs delimiter K = false.
Proof.
  intros Hin.
  destruct (groups_members _ _ grouped K nodes Hin) as [Hm Hne].
  unfold members in Hm.
  destruct (filter (fun r => String.eqb (key r) K) (getRepositoriesData d c))
    as [|r0 l] eqn:E; [subst; now elim Hne|].
  assert (H0 : In r0 (r0 :: l)) by now left.
  rewrite <- E in H0. apply filter_In in H0 as [_ H0].
  apply String.eqb_eq in H0. rewrite <- H0. apply prefixOf_clean.
Qed.

(** The span of a member of a group of two or more, after the rewrite. *)
Lemma member_title_after (K : string) (nodes : list Node) (r : RepoData) :
  In (K, nodes) g ->
  2 <= List.length nodes ->
  In r (getRepositoriesData d c) ->
  key r = K ->
  In (node r) nodes
  /\ nth_error (fold_left stripGroup (filter multi (Object_entries g)) (titleSpans d))
               (node r)
     = Some (Some (JS.substring (String.length K + 1) (title r))).
Proof.
  intros Hin Hlen Hr Hk.
  destruct (groups_members _ _ grouped K nodes Hin) as [Hm _].
  assert (Hnode : In (node r) nodes).
  { rewrite Hm, <- Hk. now apply members_In. }
  split; [assumption|].
  rewrite (stripGroups_member (filter multi (Object_entries g)) K nodes).
  - destruct (extracted_title d c r Hr) as [text [Ht ->]].
    unfold repoTitleNode in Ht.
    destruct (nth_error (titleSpans d) (node r)) as [[text'|]|]; try discriminate.
    inversion Ht; subst. reflexivity.
  - apply NoDup_concat_filter. now apply (group_nodes_NoDup d c).
  - apply filter_In. split.
    + apply (Permutation_in _ (Permutation_sym (Object_entries_perm g)) Hin).
    + unfold multi. cbn [snd]. apply negb_true_iff, Nat.ltb_ge. exact Hlen.
  - assumption.
Qed.

End Titles.

(** C5: in a group of two or more with key [K], a member whose title is [K],
    the delimiter, then [suffix] is shown as [suffix] after the rewrite,
    whatever delimiters [suffix] holds. *)
Theorem member_title_becomes_suffix
  (d : Document) (c : list Element) (g : Groups)
  (K : string) (nodes : list Node) (r : RepoData) (suffix : string) :
  listView d = Some c ->
  NoDup (querySelectorAll_li c) ->
  groupRepositoriesByPrefix (getRepositoriesData d c) = Normal g ->
  In (K, nodes) g ->
  2 <= List.length nodes ->
  In r (getRepositoriesData d c) ->
  title r = (K ++ String delimiter suffix)%string ->
  exists d',
    processRepositories d = Normal d'
    /\ In (node r) nodes
    /\ repoTitleNode d' (node r) = Some suffix.
Proof.
  intros Hc Hnd Hg Hin Hlen Hr Ht.
  eexists. split; [exact (processRepositories_rewrites d c g Hc Hnd Hg)|].
  assert (Hk : key r = K).
  { unfold key. rewrite Ht. apply prefixOf_before.
    exact (group_key_clean d c g Hg K nodes Hin). }
  destruct (member_title_after d c g Hnd Hg K nodes r Hin Hlen Hr Hk) as [Hn Hs].
  split; [assumption|].
  unfold repoTitleNode. cbn [titleSpans]. rewrite Hs, Ht.
  now rewrite substring_past_key.
Qed.

Lemma member_title_becomes_suffix_witness :
  exists d',
    processRepositories scenario = Normal d'
    /\ In 4 [3; 4; 5]
    /\ repoTitleNode d' 4 = Some "y"%string.
Proof.
  apply (member_title_becomes_suffix scenario (map Li (seq 0 6)) scenarioGroups
           "gamma" [3; 4; 5] (mkRepoData 4 "gamma-y") "y").
  - reflexivity.
  - simpl. repeat constructor; simpl; intuition lia.
  - reflexivity.
  - simpl. tauto.
  - simpl. lia.
  - simpl. tauto.
  - reflexivity.
Defined.

(** C10: in a group of two or more with key [K], a member whose whole title
    is [K] is shown with the empty title after the rewrite. *)
Theorem bare_key_title_becomes_empty
  (d : Document) (c : list Element) (g : Groups)
  (K : string) (nodes : list Node) (r : RepoData) :
  listView d = Some c ->
  NoDup (querySelectorAll_li c) ->
  groupRepositoriesByPrefix (getRepositoriesData d c) = Normal g ->
  In (K, nodes) g ->
  2 <= List.length nodes ->
  In r (getRepositoriesData d c) ->
  title r = K ->
  exists d',
    processRepositories d = Normal d'
    /\ In (node r) nodes
    /\ repoTitleNode d' (node r) = Some EmptyString.
Proof.
  intros Hc Hnd Hg Hin Hlen Hr Ht.
  eexists. split; [exact (processRepositories_rewrites d c g Hc Hnd Hg)|].
  assert (Hk : key r = K).
  { unfold key. rewrite Ht. apply prefixOf_whole.
    exact (group_key_clean d c g Hg K nodes Hin). }
  destruct (member_title_after d c g Hnd Hg K nodes r Hin Hlen Hr Hk) as [Hn Hs].
  split; [assumption|].
  unfold repoTitleNode. cbn [titleSpans]. rewrite Hs, Ht.
  now rewrite substring_of_key.
Qed.

Lemma bare_key_title_becomes_empty_witness :
  exists d',
    processRepositories bareKey = Normal d'
    /\ In 0 [0; 1]
    /\ repoTitleNode d' 0 = Some EmptyString.
Proof.
  apply (bare_key_title_becomes_empty bareKey (map Li (seq 0 2))
           [("alpha"%string, [0; 1])] "alpha" [0; 1] (mkRepoData 0 "alpha")).
  - reflexivity.
  - simpl. repeat constructor; simpl; intuition lia.
  - reflexivity.
  - simpl. tauto.
  - simpl. lia.
  - simpl. tauto.
  - reflexivity.
Defined.

(** ** The orphans *)

(** C8: a record whose key no other record has keeps the text of its title,
    stays an item of the container, is in no menu, and the items of the
    container are the nodes of such records in the order of the extraction. *)
Theorem orphans_kept_in_order
  (d : Document) (c : list Element) (g : Groups) (r : RepoData) :
  listView d = Some c ->
  NoDup (querySelectorAll_li c) ->
  groupRepositoriesByPrefix (getRepositoriesData d c) = Normal g ->
  In r (getRepositoriesData d c) ->
  List.length (members (key r) (getRepositoriesData d c)) = 1 ->
  exists d' children,
    processRepositories d = Normal d'
    /\ listView d' = Some children
    /\ repoTitleNode d' (node r) = repoTitleNode d (node r)
    /\ In (Li (node r)) children
    /\ (forall t disp content,
          In (MenuContainer t disp content) children -> ~ In (node r) content)
    /\ itemsOf children =
       map node (filter (fun r' => List.length (members (key r')
                                                  (getRepositoriesData d c)) =? 1)
                        (getRepositoriesData d c)).
Proof.
  intros Hc Hnd Hg Hr Hu.
  set (R := getRepositoriesData d c) in *.
  assert (Ho : In (node r) (map node (orphanData R))).
  { apply in_map, filter_In. split; [assumption|]. rewrite Hu. reflexivity. }
  assert (Hfree : ~ In (node r)
                      (List.concat (map snd (filter multi (Object_entries g))))).
  { intros Hin. exact (menu_nodes_not_orphans d c g Hnd Hg (node r) Hin Ho). }
  eexists. eexists.
  split; [exact (processRepositories_rewrites d c g Hc Hnd Hg)|].
  cbn [listView]. split; [reflexivity|]. fold R.
  split; [|split; [|split]].
  - unfold repoTitleNode. cbn [titleSpans]. now rewrite stripGroups_other.
  - apply in_or_app. right. now apply in_map.
  - intros t disp content Hin Hn. apply Hfree.
    apply in_app_or in Hin as [Hin|Hin].
    + apply in_rev in Hin. apply in_map_iff in Hin as [e [He Hin]].
      inversion He; subst. apply in_concat. exists (snd e).
      split; [now apply in_map|assumption].
    + apply in_map_iff in Hin as [n [Hd _]]. discriminate.
  - rewrite <- map_rev, itemsOf_menus_items. f_equal.
    unfold orphanData. apply filter_ext_in. intros r' Hr'.
    pose proof (members_In R r' Hr') as Hm.
    destruct (members (key r') R) as [|n [|m l]]; [destruct Hm|reflexivity..].
Qed.

Lemma orphans_kept_in_order_witness :
  exists d' children,
    processRepositories scenario = Normal d'
    /\ listView d' = Some children
    /\ repoTitleNode d' 2 = repoTitleNode scenario 2
    /\ In (Li 2) children
    /\ (forall t disp content,
          In (MenuContainer t disp content) children -> ~ In 2 content)
    /\ itemsOf children =
       map node (filter (fun r' => List.length (members (key r') scenarioData) =? 1)
                        scenarioData).
Proof.
  apply (orphans_kept_in_order scenario (map Li (seq 0 6)) scenarioGroups
           (mkRepoData 2 "beta-solo")).
  - reflexivity.
  - simpl. repeat constructor; simpl; intuition lia.
  - reflexivity.
  - simpl. tauto.
  - reflexivity.
Defined.

(** ** Throwing *)

Section Throws.

(** The rewrite completes when the container is missing, and when no key is
    a name of the prototype. *)
Lemma processRepositories_completes (d : Document) :
  (forall c r, listView d = Some c -> In r (getRepositoriesData d c) ->
               lookup (key r) Object_prototype = None) ->
  exists d', processRepositories d = Normal d'.
Proof.
  intros H. unfold processRepositories, getRepositoriesContainer.
  destruct (listView d) as [c|] eqn:Ec; [|eauto].
  destruct (reduce_normal (getRepositoriesData d c)
              (fun r => H c r eq_refl) []) as [g Hg].
  fold (groupRepositoriesByPrefix (getRepositoriesData d c)) in Hg.
  rewrite Hg. cbn [bind].
  rewrite (filterC_pure _ (fun r => List.length
                                      (members (key r) (getRepositoriesData d c)) <? 2)).
  2:{ intros r Hr. fold (key r). now rewrite (groups_get _ _ Hg r Hr). }
  cbn [bind]. destruct (createCollapsibleMenu _ _). eauto.
Qed.

(** It throws when the key of a title is such a name. *)
Lemma processRepositories_throws (d : Document) (c : list Element) (r : RepoData) :
  listView d = Some c ->
  In r (getRepositoriesData d c) ->
  lookup (key r) Object_prototype <> None ->
  processRepositories d = Throw TypeError.
Proof.
  intros Hc Hr Hk. unfold processRepositories, getRepositoriesContainer.
  rewrite Hc. unfold groupRepositoriesByPrefix.
  rewrite reduce_throw; [reflexivity|intros k []|eauto].
Qed.

End Throws.

Example constructorPage_ready : is_document_ready constructorPage = true.
Proof. reflexivity. Qed.

(** C3: the claim that the pipeline never throws fails on this page: the
    grouping reads [groups["constructor"]], finds the inherited function,
    and calls its missing [push]. *)
Theorem constructor_title_throws :
  processRepositories constructorPage = Throw TypeError.
Proof.
  apply (processRepositories_throws constructorPage [Li 0]
           (mkRepoData 0 "constructor")); [reflexivity|now left|discriminate].
Qed.

(** ** The readiness probe *)

(** C6: the probe answers true exactly when the container is found, has an
    item, and every item has a title span whose trimmed text is not empty;
    it is a total function, so it answers false in all other cases. *)
Theorem is_document_ready_iff (d : Document) :
  is_document_ready d = true <->
  exists repoListContainer,
    getRepositoriesContainer d = Some repoListContainer
    /\ querySelectorAll_li repoListContainer <> []
    /\ forall item, In item (querySelectorAll_li repoListContainer) ->
         exists text, repoTitleNode d item = Some text
                      /\ JS.trim text <> EmptyString.
Proof.
  unfold is_document_ready.
  destruct (getRepositoriesContainer d) as [c|]; [|split; [discriminate|]].
  - destruct (querySelectorAll_li c) as [|n l] eqn:E.
    + split; [discriminate|]. intros [c' [Hc [Hne _]]].
      inversion Hc; subst. rewrite E in Hne. now elim Hne.
    + rewrite <- E. rewrite forallb_forall. split.
      * intros H. exists c. split; [reflexivity|]. split; [rewrite E; discriminate|].
        intros item Hin. specialize (H item Hin).
        destruct (repoTitleNode d item) as [text|]; [|discriminate].
        exists text. split; [reflexivity|]. intros Ht. now rewrite Ht in H.
      * intros [c' [Hc [_ H]]] item Hin. inversion Hc; subst c'.
        destruct (H item Hin) as [text [-> Ht]].
        destruct (JS.trim text); [now elim Ht|reflexivity].
  - intros [c [Hc _]]. discriminate.
Qed.

Lemma is_document_ready_iff_witness : is_document_ready scenario = true.
Proof.
  apply (proj2 (is_document_ready_iff scenario)).
  exists (map Li (seq 0 6)). split; [reflexivity|]. split; [discriminate|].
  intros item Hin. simpl in Hin.
  destruct Hin as [<-|[<-|[<-|[<-|[<-|[<-|[]]]]]]];
    eexists; (split; [reflexivity|discriminate]).
Defined.

Example not_ready_without_container :
  is_document_ready (loading [Some "alpha-one"]%string) = false.
Proof. reflexivity. Qed.

Example not_ready_without_items : is_document_ready (page []) = false.
Proof. reflexivity. Qed.

Example not_ready_without_title :
  is_document_ready (page [Some "alpha-one"; None]%string) = false.
Proof. reflexivity. Qed.

Example not_ready_with_blank_title :
  is_document_ready (page [Some "alpha-one"; Some "  "]%string) = false.
Proof. reflexivity. Qed.

(** ** One run for each arrival *)

Section Monitor.

Lemma stays_cons (w : Window) (rest : list Window) :
  stays (w :: rest) =
  if onView w then
    match rest with
    | [] => [[w]]
    | w' :: _ =>
        if onView w' then
          match stays rest with
          | stay :: more => (w :: stay) :: more
          | [] => [[w]]
          end
        else [w] :: stays rest
    end
  else stays rest.
Proof. reflexivity. Qed.

Lemma stays_on (ticks : list Window) :
  forall w, onView w = true ->
  stays (w :: ticks) = (w :: whileOn ticks) :: stays (afterOn ticks).
Proof.
  induction ticks as [|w' ticks IH]; intros w Hw; rewrite stays_cons, Hw.
  - reflexivity.
  - cbv iota. cbn [whileOn afterOn].
    destruct (onView w') eqn:Hw'; [|reflexivity].
    now rewrite (IH w' Hw').
Qed.

Lemma stays_off (ticks : list Window) (w : Window) :
  onView w = false -> stays (w :: ticks) = stays ticks.
Proof. intros Hw. now rewrite stays_cons, Hw. Qed.

Lemma served_split (ticks : list Window) :
  served (stays ticks) =
  (if existsb completes (whileOn ticks) then 1 else 0) + served (stays (afterOn ticks)).
Proof.
  destruct ticks as [|w ticks]; [reflexivity|].
  cbn [whileOn afterOn].
  destruct (onView w) eqn:Hw.
  - rewrite stays_on by assumption. unfold served. cbn [filter].
    destruct (existsb completes (w :: whileOn ticks)); reflexivity.
  - reflexivity.
Qed.

Lemma startChecking_cons (st : ViewState) (w : Window) (ticks : list Window) :
  snd (startChecking st (w :: ticks)) =
  snd (checkPage st w) :: snd (startChecking (fst (checkPage st w)) ticks).
Proof.
  cbn [startChecking].
  destruct (checkPage st w) as [st1 o]. cbn [fst snd].
  destruct (startChecking st1 ticks). reflexivity.
Qed.

(** The three cases of a call of [checkPage]. *)
Lemma checkPage_off (st : ViewState) (w : Window) :
  onView w = false ->
  checkPage st w =
  ({| isOnRepositoriesPage := false;
      hasProcessedRepositories := hasProcessedRepositories st |}, Idle).
Proof.
  unfold onView, checkPage. intros ->. destruct st as [[|] p]; reflexivity.
Qed.

Lemma checkPage_done (st : ViewState) (w : Window) :
  onView w = true ->
  isOnRepositoriesPage st = true ->
  hasProcessedRepositories st = true ->
  checkPage st w = (st, Idle).
Proof.
  unfold onView, checkPage. intros -> Hon Hp.
  destruct st as [o p]. cbn in *. subst. reflexivity.
Qed.

Lemma checkPage_pending (st : ViewState) (w : Window) :
  onView w = true ->
  isOnRepositoriesPage st && hasProcessedRepositories st = false ->
  checkPage st w =
  if is_document_ready (document w) then
    match processRepositories (document w) with
    | Normal d' =>
        ({| isOnRepositoriesPage := true; hasProcessedRepositories := true |},
         Processed d')
    | Throw e =>
        ({| isOnRepositoriesPage := true; hasProcessedRepositories := false |},
         Threw e)
    end
  else ({| isOnRepositoriesPage := true; hasProcessedRepositories := false |}, Idle).
Proof.
  unfold onView, checkPage. intros -> Hst.
  destruct st as [[|] [|]]; try discriminate; cbn;
    destruct (is_document_ready (document w)); try reflexivity;
    destruct (processRepositories (document w)); reflexivity.
Qed.

(** The runs from any state of the flags. *)
Lemma runs_from (ticks : list Window) :
  forall st,
  runs (snd (startChecking st ticks)) =
  if isOnRepositoriesPage st && hasProcessedRepositories st
  then served (stays (afterOn ticks))
  else served (stays ticks).
Proof.
  induction ticks as [|w ticks IH]; intros st.
  - simpl. now destruct (_ && _).
  - rewrite startChecking_cons.
    destruct (onView w) eqn:Hw.
    + destruct (isOnRepositoriesPage st && hasProcessedRepositories st) eqn:Hst.
      * apply andb_true_iff in Hst as [Hon Hp].
        rewrite checkPage_done by assumption. cbn [fst snd].
        unfold runs at 1. cbn [filter]. fold (runs (snd (startChecking st ticks))).
        rewrite IH, Hon, Hp. cbn [andb afterOn]. now rewrite Hw.
      * rewrite checkPage_pending by assumption.
        rewrite stays_on by assumption. unfold served at 1. cbn [filter existsb].
        unfold completes at 1.
        destruct (is_document_ready (document w)).
        -- destruct (processRepositories (document w)) as [d'|e]; cbn [fst snd andb orb].
           ++ unfold runs at 1. cbn [filter List.length].
              fold (runs (snd (startChecking
                    {| isOnRepositoriesPage := true;
                       hasProcessedRepositories := true |} ticks))).
              rewrite IH. reflexivity.
           ++ unfold runs at 1. cbn [filter].
              fold (runs (snd (startChecking
                    {| isOnRepositoriesPage := true;
                       hasProcessedRepositories := false |} ticks))).
              rewrite IH. cbn [isOnRepositoriesPage hasProcessedRepositories andb].
              rewrite served_split. unfold served.
              destruct (existsb completes (whileOn ticks)); reflexivity.
        -- cbn [fst snd andb orb].
           unfold runs at 1. cbn [filter].
           fold (runs (snd (startChecking
                 {| isOnRepositoriesPage := true;
                    hasProcessedRepositories := false |} ticks))).
           rewrite IH. cbn [isOnRepositoriesPage hasProcessedRepositories andb].
           rewrite served_split. unfold served.
           destruct (existsb completes (whileOn ticks)); reflexivity.
    + rewrite checkPage_off by assumption. cbn [fst snd].
      unfold runs at 1. cbn [filter].
      fold (runs (snd (startChecking
            {| isOnRepositoriesPage := false;
               hasProcessedRepositories := hasProcessedRepositories st |} ticks))).
      rewrite IH. cbn [isOnRepositoriesPage andb afterOn]. rewrite Hw.
      rewrite stays_off by assumption.
      now destruct (_ && _).
Qed.

(** Once the arrival is processed, ticks on the view change nothing and
    call nothing. *)
Lemma done_is_idle (ticks : list Window) (st : ViewState) :
  isOnRepositoriesPage st = true ->
  hasProcessedRepositories st = true ->
  forallb onView ticks = true ->
  startChecking st ticks = (st, map (fun _ => Idle) ticks).
Proof.
  intros Hon Hp. induction ticks as [|w ticks IH]; intros H; [reflexivity|].
  cbn [forallb] in H. apply andb_true_iff in H as [Hw H].
  cbn [startChecking]. rewrite checkPage_done by assumption.
  rewrite IH by assumption. reflexivity.
Qed.

End Monitor.

Example arrive_ready_depart_arrive_ready :
  map (fun o => match o with Processed _ => true | _ => false end)
      (snd (startChecking initialState [arrive; ready; depart; arrive; ready]))
  = [false; true; false; false; true].
Proof. reflexivity. Qed.

Example extra_triggers_do_nothing :
  runs (snd (startChecking initialState
               [arrive; ready; ready; ready; depart; arrive; ready; ready; ready])) = 2.
Proof. reflexivity. Qed.

(** A pipeline that throws leaves the arrival unprocessed, so every later
    tick calls it again. *)
Example throwing_pipeline_is_called_again :
  startChecking initialState
    [mkWindow repositoriesUrl constructorPage;
     mkWindow repositoriesUrl constructorPage;
     mkWindow repositoriesUrl constructorPage]
  = ({| isOnRepositoriesPage := true; hasProcessedRepositories := false |},
     [Threw TypeError; Threw TypeError; Threw TypeError]).
Proof. reflexivity. Qed.

(** Against C2 as stated: an arrival that is left before the document is
    ready has no run at all. *)
Lemma not_once_per_arrival : ~ oncePerArrival [arrive; depart].
Proof. unfold oncePerArrival. simpl. discriminate. Qed.

(** C2, amended: over all sequences of ticks the pipeline runs to its end
    once for each stay on the view during which some tick finds the document
    ready and the pipeline completes, and not at all during the other stays,
    so never twice for one arrival; on arrive, ready, depart, arrive, ready
    it runs twice; and once an arrival is processed, no tick on the view
    calls the pipeline again, however many there are. *)
Theorem one_run_per_served_arrival :
  (forall ticks,
     runs (snd (startChecking initialState ticks)) = served (stays ticks)
     /\ runs (snd (startChecking initialState ticks)) <= List.length (stays ticks))
  /\ runs (snd (startChecking initialState [arrive; ready; depart; arrive; ready])) = 2
  /\ (forall st ticks,
        isOnRepositoriesPage st = true ->
        hasProcessedRepositories st = true ->
        forallb onView ticks = true ->
        startChecking st ticks = (st, map (fun _ => Idle) ticks)).
Proof.
  split; [|split].
  - intros ticks. rewrite (runs_from ticks initialState).
    cbn [initialState isOnRepositoriesPage hasProcessedRepositories andb].
    split; [reflexivity|]. unfold served. apply filter_length_le.
  - reflexivity.
  - intros st ticks. apply done_is_idle.
Qed.

Lemma one_run_per_served_arrival_witness :
  startChecking {| isOnRepositoriesPage := true; hasProcessedRepositories := true |}
                [ready; arrive; ready]
  = ({| isOnRepositoriesPage := true; hasProcessedRepositories := true |},
     [Idle; Idle; Idle]).
Proof.
  apply (proj2 (proj2 one_run_per_served_arrival)); reflexivity.
Defined.

(** * Further properties *)

(** ** The click handler *)


(** ** The probe and the extraction *)

Section Extracted.

Lemma filter_all {A : Type} (p : A -> bool) (l : list A) :
  forallb p l = true -> filter p l = l.
Proof.
  induction l as [|a l IH]; [reflexivity|]. cbn [forallb filter].
  intros H. apply andb_true_iff in H as [Ha Hl]. rewrite Ha, IH; auto.
Qed.

Lemma ready_items (d : Document) (c : list Element) :
  is_document_ready d = true ->
  listView d = Some c ->
  querySelectorAll_li c <> []
  /\ forall n, In n (querySelectorAll_li c) ->
       exists text, repoTitleNode d n = Some text /\ JS.trim text <> EmptyString.
Proof.
  unfold is_document_ready, getRepositoriesContainer. intros H Hc.
  rewrite Hc in H.
  destruct (querySelectorAll_li c) as [|n0 l] eqn:E; [discriminate|].
  split; [discriminate|]. rewrite forallb_forall in H.
  intros n Hn. specialize (H n Hn).
  destruct (repoTitleNode d n) as [text|]; [|discriminate].
  exists text. split; [reflexivity|]. intros Ht. now rewrite Ht in H.
Qed.

Lemma trimStart_clean (s : string) : startsClean (JS.trimStart s) = true.
Proof.
  induction s as [|c s IH]; [reflexivity|]. cbn [JS.trimStart].
  destruct (JS.isWhiteSpace c) eqn:E; [exact IH|]. cbn. now rewrite E.
Qed.

Lemma trimStart_of_clean (s : string) :
  startsClean s = true -> JS.trimStart s = s.
Proof.
  destruct s as [|c s]; [reflexivity|]. cbn.
  now destruct (JS.isWhiteSpace c).
Qed.

Lemma trimEnd_clean (s : string) :
  startsClean s = true -> startsClean (JS.trimEnd s) = true.
Proof.
  destruct s as [|c s]; [reflexivity|]. cbn [startsClean JS.trimEnd].
  intros Hc. destruct (JS.trimEnd s).
  - destruct (JS.isWhiteSpace c) eqn:Ec; [discriminate|].
    cbn. now rewrite Ec.
  - exact Hc.
Qed.

Lemma trimEnd_trimEnd (s : string) : JS.trimEnd (JS.trimEnd s) = JS.trimEnd s.
Proof.
  induction s as [|c s IH]; [reflexivity|]. cbn [JS.trimEnd].
  destruct (JS.trimEnd s) as [|c' t] eqn:E.
  - destruct (JS.isWhiteSpace c) eqn:Ec; [reflexivity|].
    cbn [JS.trimEnd]. now rewrite Ec.
  - cbn [JS.trimEnd]. cbn [JS.trimEnd] in IH. rewrite IH. reflexivity.
Qed.

Lemma trim_trim (s : string) : JS.trim (JS.trim s) = JS.trim s.
Proof.
  unfold JS.trim.
  rewrite (trimStart_of_clean (JS.trimEnd (JS.trimStart s))).
  - apply trimEnd_trimEnd.
  - apply trimEnd_clean, trimStart_clean.
Qed.

End Extracted.

(** X2: when the probe succeeds, the extraction gives one record for every
    item of the container, in the order of the items, and no title is
    empty. *)
Theorem ready_page_extracts_every_item (d : Document) (c : list Element) :
  is_document_ready d = true ->
  listView d = Some c ->
  map node (getRepositoriesData d c) = querySelectorAll_li c
  /\ getRepositoriesData d c <> []
  /\ forall r, In r (getRepositoriesData d c) -> title r <> EmptyString.
Proof.
  intros Hready Hc.
  destruct (ready_items d c Hready Hc) as [Hne Hall].
  assert (Hnodes : map node (getRepositoriesData d c) = querySelectorAll_li c).
  { rewrite extracted_nodes. apply filter_all. apply forallb_forall.
    intros n Hn. destruct (Hall n Hn) as [text [-> _]]. reflexivity. }
  split; [exact Hnodes|]. split.
  - intros E. rewrite E in Hnodes. cbn in Hnodes. now elim Hne.
  - intros r Hr.
    assert (Hn : In (node r) (querySelectorAll_li c)).
    { rewrite <- Hnodes. now apply in_map. }
    destruct (Hall _ Hn) as [text [Ht Hne']].
    destruct (extracted_title d c r Hr) as [text' [Ht' ->]].
    congruence.
Qed.

Lemma ready_page_extracts_every_item_witness :
  map node (getRepositoriesData scenario (map Li (seq 0 6)))
  = querySelectorAll_li (map Li (seq 0 6))
  /\ getRepositoriesData scenario (map Li (seq 0 6)) <> []
  /\ forall r, In r (getRepositoriesData scenario (map Li (seq 0 6))) ->
       title r <> EmptyString.
Proof.
  apply (ready_page_extracts_every_item scenario (map Li (seq 0 6))); reflexivity.
Defined.

(** X3: an extracted title has no white space around it: it does not begin
    with white space, and trimming it again gives the same title. *)
Theorem extracted_titles_are_trimmed (d : Document) (c : list Element) (r : RepoData) :
  In r (getRepositoriesData d c) ->
  JS.trim (title r) = title r /\ startsClean (title r) = true.
Proof.
  intros Hr. destruct (extracted_title d c r Hr) as [text [_ ->]].
  split; [apply trim_trim|].
  unfold JS.trim. apply trimEnd_clean, trimStart_clean.
Qed.

Lemma extracted_titles_are_trimmed_witness :
  JS.trim "b-1" = "b-1"%string /\ startsClean "b-1" = true.
Proof.
  apply (extracted_titles_are_trimmed (page [Some "  b-1 "%string]) [Li 0]
           (mkRepoData 0 "b-1")).
  simpl. now left.
Defined.

(** ** When the pipeline throws *)

Section InheritedKeys.

Lemma inheritedKey_false (r : RepoData) :
  inheritedKey r = false <-> lookup (key r) Object_prototype = None.
Proof.
  unfold inheritedKey. destruct (lookup (key r) Object_prototype); split;
    congruence.
Qed.

Lemma inheritedKey_true (r : RepoData) :
  inheritedKey r = true <-> lookup (key r) Object_prototype <> None.
Proof.
  unfold inheritedKey. destruct (lookup (key r) Object_prototype); split;
    congruence.
Qed.

End InheritedKeys.

(** X4: the pipeline throws exactly when the container is found and the key
    of some extracted title names a property of [Object.prototype]; in
    particular it returns when the container is missing or the list is
    empty. *)
Theorem processRepositories_throws_iff (d : Document) :
  processRepositories d = Throw TypeError <->
  exists c r,
    listView d = Some c
    /\ In r (getRepositoriesData d c)
    /\ inheritedKey r = true.
Proof.
  split.
  - intros H. destruct (listView d) as [c|] eqn:Ec.
    + destruct (existsb inheritedKey (getRepositoriesData d c)) eqn:E.
      * apply existsb_exists in E as [r [Hr Hk]]. exists c, r. auto.
      * destruct (processRepositories_completes d) as [d' Hd'].
        { intros c' r Hc' Hr. rewrite Ec in Hc'. inversion Hc'; subst c'.
          apply inheritedKey_false.
          destruct (inheritedKey r) eqn:Er; [|reflexivity].
          assert (existsb inheritedKey (getRepositoriesData d c) = true)
            by (apply existsb_exists; eauto).
          congruence. }
        congruence.
    + unfold processRepositories, getRepositoriesContainer in H.
      rewrite Ec in H. discriminate.
  - intros [c [r [Hc [Hr Hk]]]].
    apply (processRepositories_throws d c r Hc Hr). now apply inheritedKey_true.
Qed.

Lemma processRepositories_throws_iff_witness :
  processRepositories (page [Some "alpha-one"; Some "toString-utils"]%string)
  = Throw TypeError.
Proof.
  apply (proj2 (processRepositories_throws_iff
                  (page [Some "alpha-one"; Some "toString-utils"]%string))).
  exists [Li 0; Li 1], (mkRepoData 1 "toString-utils").
  split; [reflexivity|]. split; [simpl; tauto|reflexivity].
Defined.

(** ** What the rewrite keeps *)

Section Kept.

Lemma filter_none {A : Type} (p : A -> bool) (l : list A) :
  (forall a, In a l -> p a = false) -> filter p l = [].
Proof.
  induction l as [|a l IH]; intros H; [reflexivity|]. cbn [filter].
  rewrite (H a) by now left. apply IH. intros; apply H; now right.
Qed.

(** The nodes of the records that a filter keeps are distinct when the
    nodes of all the records are. *)
Lemma kept_nodes_distinct (keep : RepoData -> bool) (R : list RepoData) :
  NoDup (map node R) -> NoDup (map node (filter keep R)).
Proof.
  induction R as [|r R IH]; intros H; [constructor|].
  cbn [filter]. inversion H; subst.
  destruct (keep r); [cbn [map]; constructor|]; auto.
  intros Hin. apply H2. rewrite in_map_iff in *.
  destruct Hin as [r' [Hr' Hin]]. exists r'. split; [assumption|].
  now apply filter_In in Hin.
Qed.

Lemma querySelectorAll_li_menus (M : list Entry) :
  querySelectorAll_li (map menuOf M) = List.concat (map snd M).
Proof.
  induction M as [|e M IH]; [reflexivity|].
  cbn [map List.concat querySelectorAll_li flat_map menuOf].
  f_equal. exact IH.
Qed.

Variables (d : Document) (c : list Element) (g : Groups).

Hypothesis items_distinct : NoDup (querySelectorAll_li c).
Hypothesis grouped : groupRepositoriesByPrefix (getRepositoriesData d c) = Normal g.

(** The group of a record is among the groups. *)
Lemma groups_In (r : RepoData) :
  In r (getRepositoriesData d c) ->
  In (key r, members (key r) (getRepositoriesData d c)) g.
Proof.
  intros Hr. apply lookup_In.
  pose proof (groups_get _ _ grouped r Hr) as G. unfold get in G.
  destruct (lookup (key r) g); [congruence|].
  destruct (lookup (key r) Object_prototype); discriminate.
Qed.

(** The items below the rewritten container: the nodes of the menus, then
    the orphans. *)
Lemma rewritten_items :
  let M := filter multi (Object_entries g) in
  let O := map node (orphanData (getRepositoriesData d c)) in
  NoDup (querySelectorAll_li (rev (map menuOf M) ++ map Li O))
  /\ forall n, In n (querySelectorAll_li (rev (map menuOf M) ++ map Li O))
               <-> In n (map node (getRepositoriesData d c)).
Proof.
  intros M O.
  rewrite querySelectorAll_li_app, querySelectorAll_li_items.
  rewrite <- map_rev, querySelectorAll_li_menus.
  assert (HM : NoDup (List.concat (map snd M))).
  { apply NoDup_concat_filter. exact (group_nodes_NoDup d c g items_distinct grouped). }
  assert (HP : Permutation (List.concat (map snd (rev M))) (List.concat (map snd M))).
  { rewrite <- !flat_map_concat_map. apply Permutation_flat_map.
    apply Permutation_sym, Permutation_rev. }
  assert (HR : NoDup (map node (getRepositoriesData d c)))
    by now apply extracted_NoDup.
  assert (HO : forall n, In n O -> In n (map node (getRepositoriesData d c))).
  { intros n Hn. unfold O, orphanData in Hn. rewrite in_map_iff in *.
    destruct Hn as [r [Hr Hin]]. exists r. split; [assumption|].
    now apply filter_In in Hin. }
  split.
  - apply NoDup_app.
    + exact (Permutation_NoDup (Permutation_sym HP) HM).
    + unfold O, orphanData. now apply kept_nodes_distinct.
    + intros n Hn Ho.
      apply (menu_nodes_not_orphans d c g items_distinct grouped n); [|exact Ho].
      exact (Permutation_in _ HP Hn).
  - intros n. rewrite in_app_iff. split.
    + intros [Hn|Hn]; [|now apply HO].
      apply (Permutation_in _ HP) in Hn.
      apply in_concat in Hn as [nodes [Hnodes Hn]].
      apply in_map_iff in Hnodes as [[k nodes'] [Heq He]].
      cbn [snd] in Heq; subst nodes'. apply filter_In in He as [He _].
      destruct (entry_members d c g grouped k nodes He) as [-> _].
      unfold members in Hn. rewrite in_map_iff in *.
      destruct Hn as [r [Hr Hin]]. exists r. split; [assumption|].
      now apply filter_In in Hin.
    + intros Hn. apply in_map_iff in Hn as [r [<- Hr]].
      destruct (List.length (members (key r) (getRepositoriesData d c)) <? 2) eqn:E.
      * right. apply in_map, filter_In. now split.
      * left. apply (Permutation_in _ (Permutation_sym HP)).
        apply in_concat.
        exists (members (key r) (getRepositoriesData d c)).
        split; [|now apply members_In].
        apply in_map_iff.
        exists (key r, members (key r) (getRepositoriesData d c)).
        split; [reflexivity|]. apply filter_In. split.
        -- apply (Permutation_in _ (Permutation_sym (Object_entries_perm g))).
           now apply groups_In.
        -- unfold multi. cbn [snd]. now rewrite E.
Qed.

End Kept.

(** X5: the rewrite moves nodes and neither copies nor loses a titled one:
    the items below the rewritten container are the items that had a title
    span, each once; an item without a title span is gone; and after a
    successful probe they are all the items of the list. *)
Theorem rewrite_keeps_titled_items (d : Document) (c : list Element) (g : Groups) :
  listView d = Some c ->
  NoDup (querySelectorAll_li c) ->
  groupRepositoriesByPrefix (getRepositoriesData d c) = Normal g ->
  exists d' children,
    processRepositories d = Normal d'
    /\ listView d' = Some children
    /\ NoDup (querySelectorAll_li children)
    /\ Permutation (querySelectorAll_li children)
                   (filter (titled d) (querySelectorAll_li c))
    /\ (forall n, titled d n = false -> ~ In n (querySelectorAll_li children))
    /\ (is_document_ready d = true ->
        Permutation (querySelectorAll_li children) (querySelectorAll_li c)).
Proof.
  intros Hc Hnd Hg.
  eexists. eexists.
  split; [exact (processRepositories_rewrites d c g Hc Hnd Hg)|].
  cbn [listView]. split; [reflexivity|].
  destruct (rewritten_items d c g Hnd Hg) as [Hnd' Hin].
  assert (HP : Permutation
                 (querySelectorAll_li
                    (rev (map menuOf (filter multi (Object_entries g)))
                     ++ map Li (map node (orphanData (getRepositoriesData d c)))))
                 (filter (titled d) (querySelectorAll_li c))).
  { apply NoDup_Permutation; [exact Hnd'|now apply NoDup_filter|].
    intros n. rewrite (Hin n), extracted_nodes. reflexivity. }
  split; [exact Hnd'|]. split; [exact HP|]. split.
  - intros n Hn Hin'. apply (Permutation_in _ HP) in Hin'.
    apply filter_In in Hin' as [_ Ht]. congruence.
  - intros Hready. rewrite HP.
    destruct (ready_items d c Hready Hc) as [_ Hall].
    rewrite filter_all; [reflexivity|].
    apply forallb_forall. intros n Hn. unfold titled.
    destruct (Hall n Hn) as [text [-> _]]. reflexivity.
Qed.

Lemma rewrite_keeps_titled_items_witness :
  exists d' children,
    processRepositories scenario = Normal d'
    /\ listView d' = Some children
    /\ NoDup (querySelectorAll_li children)
    /\ Permutation (querySelectorAll_li children)
                   (filter (titled scenario) (querySelectorAll_li (map Li (seq 0 6))))
    /\ (forall n, titled scenario n = false -> ~ In n (querySelectorAll_li children))
    /\ (is_document_ready scenario = true ->
        Permutation (querySelectorAll_li children)
                    (querySelectorAll_li (map Li (seq 0 6)))).
Proof.
  apply (rewrite_keeps_titled_items scenario (map Li (seq 0 6)) scenarioGroups).
  - reflexivity.
  - apply (page_items_distinct [None; None; None; None; None; None]).
  - reflexivity.
Defined.

(** X6: a page where every item has a title and no two titles share a key
    is left exactly as it is. *)
Theorem page_without_shared_keys_is_unchanged
  (items : list (option string)) (g : Groups) :
  Forall (fun span => span <> None) items ->
  groupRepositoriesByPrefix
    (getRepositoriesData (page items) (map Li (seq 0 (List.length items)))) = Normal g ->
  (forall r,
     In r (getRepositoriesData (page items) (map Li (seq 0 (List.length items)))) ->
     List.length (members (key r)
                    (getRepositoriesData (page items)
                       (map Li (seq 0 (List.length items))))) = 1) ->
  processRepositories (page items) = Normal (page items).
Proof.
  intros Hall Hg Huniq.
  set (c := map Li (seq 0 (List.length items))) in *.
  set (R := getRepositoriesData (page items) c) in *.
  rewrite (processRepositories_rewrites (page items) c g eq_refl
             (page_items_distinct items) Hg).
  fold R.
  assert (HM : filter multi (Object_entries g) = []).
  { apply filter_none. intros [k nodes] He.
    destruct (entry_members (page items) c g Hg k nodes He) as [Hm Hne].
    fold R in Hm. unfold multi. cbn [snd].
    assert (Hr : exists r, In r R /\ key r = k).
    { subst nodes. unfold members in Hne.
      destruct (filter (fun r => String.eqb (key r) k) R) as [|r l] eqn:E;
        [now elim Hne|].
      exists r. assert (Hin : In r (r :: l)) by now left.
      rewrite <- E in Hin. apply filter_In in Hin as [Hin Hk].
      split; [assumption|now apply String.eqb_eq]. }
    destruct Hr as [r [Hr Hk]]. rewrite Hm, <- Hk, (Huniq r Hr). reflexivity. }
  assert (HO : orphanData R = R).
  { unfold orphanData. apply filter_all, forallb_forall.
    intros r Hr. now rewrite (Huniq r Hr). }
  assert (HN : map node R = seq 0 (List.length items)).
  { unfold R. rewrite extracted_nodes. unfold c.
    rewrite querySelectorAll_li_items. apply filter_all, forallb_forall.
    intros n Hn. apply in_seq in Hn. unfold repoTitleNode, page. cbn [titleSpans].
    destruct (nth_error items n) as [[text|]|] eqn:E; [reflexivity| |].
    - apply nth_error_In in E. rewrite Forall_forall in Hall.
      now elim (Hall None E).
    - apply nth_error_None in E. lia. }
  rewrite HM, HO, HN. reflexivity.
Qed.

Lemma page_without_shared_keys_is_unchanged_witness :
  processRepositories (page [Some "alpha-one"; Some "beta-solo"; Some "gamma"]%string)
  = Normal (page [Some "alpha-one"; Some "beta-solo"; Some "gamma"]%string).
Proof.
  apply (page_without_shared_keys_is_unchanged
           [Some "alpha-one"; Some "beta-solo"; Some "gamma"]%string
           [("alpha", [0]); ("beta", [1]); ("gamma", [2])]%string).
  - repeat constructor; discriminate.
  - reflexivity.
  - intros r Hr. simpl in Hr.
    destruct Hr as [<-|[<-|[<-|[]]]]; reflexivity.
Defined.



(** X8: nothing of a title is lost by the stripping: for every member of a
    group of two or more, the title is the key alone and the shown title is
    empty, or the title is the key, the delimiter and the shown title. *)
Theorem shown_title_restores_title
  (d : Document) (c : list Element) (g : Groups) (r : RepoData) :
  listView d = Some c ->
  NoDup (querySelectorAll_li c) ->
  groupRepositoriesByPrefix (getRepositoriesData d c) = Normal g ->
  In r (getRepositoriesData d c) ->
  2 <= List.length (members (key r) (getRepositoriesData d c)) ->
  exists d' shown,
    processRepositories d = Normal d'
    /\ repoTitleNode d' (node r) = Some shown
    /\ ((title r = key r /\ shown = EmptyString)
        \/ title r = (key r ++ String delimiter shown)%string).
Proof.
  intros Hc Hnd Hg Hr Hlen.
  eexists. eexists.
  split; [exact (processRepositories_rewrites d c g Hc Hnd Hg)|].
  destruct (member_title_after d c g Hnd Hg (key r) _ r
              (groups_In d c g Hg r Hr) Hlen Hr eq_refl) as [_ Hs].
  unfold repoTitleNode. cbn [titleSpans]. rewrite Hs.
  split; [reflexivity|].
  unfold key. remember (prefixOf (title r)) as k eqn:Ek.
  destruct (prefixOf_shape (title r)) as [H|[rest H]]; rewrite <- Ek in H.
  - left. split; [assumption|]. rewrite H. apply substring_of_key.
  - right.
    assert (E : JS.substring (String.length k + 1) (title r) = rest)
      by (rewrite H; apply substring_past_key).
    rewrite E. exact H.
Qed.

Lemma shown_title_restores_title_witness :
  exists d' shown,
    processRepositories scenario = Normal d'
    /\ repoTitleNode d' 3 = Some shown
    /\ (("gamma-x"%string = "gamma"%string /\ shown = EmptyString)
        \/ "gamma-x"%string = ("gamma" ++ String delimiter shown)%string).
Proof.
  apply (shown_title_restores_title scenario (map Li (seq 0 6)) scenarioGroups
           (mkRepoData 3 "gamma-x")).
  - reflexivity.
  - apply (page_items_distinct [None; None; None; None; None; None]).
  - reflexivity.
  - simpl. tauto.
  - simpl. lia.
Defined.

(** ** The monitor, tick by tick *)

Section Ticks.

Lemma startChecking_app (a b : list Window) :
  forall st,
  startChecking st (a ++ b) =
  (fst (startChecking (fst (startChecking st a)) b),
   snd (startChecking st a) ++ snd (startChecking (fst (startChecking st a)) b)).
Proof.
  induction a as [|w a IH]; intros st.
  - cbn. now destruct (startChecking st b).
  - cbn [app startChecking].
    destruct (checkPage st w) as [st1 o].
    rewrite (IH st1).
    destruct (startChecking st1 a) as [st2 os]. reflexivity.
Qed.

Lemma startChecking_length (ticks : list Window) :
  forall st, List.length (snd (startChecking st ticks)) = List.length ticks.
Proof.
  induction ticks as [|w ticks IH]; intros st; [reflexivity|].
  rewrite startChecking_cons. cbn [List.length]. now rewrite IH.
Qed.

(** The flag of the view after a call of [checkPage]. *)
Lemma checkPage_on (st : ViewState) (w : Window) :
  isOnRepositoriesPage (fst (checkPage st w)) = onView w.
Proof.
  destruct (onView w) eqn:Hw.
  - destruct (isOnRepositoriesPage st && hasProcessedRepositories st) eqn:Hst.
    + apply andb_true_iff in Hst as [Hon Hp].
      now rewrite checkPage_done.
    + rewrite checkPage_pending by assumption.
      destruct (is_document_ready (document w)); [|reflexivity].
      destruct (processRepositories (document w)); reflexivity.
  - now rewrite checkPage_off.
Qed.

(** The outcome of a call of [checkPage]. *)
Lemma checkPage_outcome (st : ViewState) (w : Window) :
  snd (checkPage st w) =
  if onView w
     && negb (isOnRepositoriesPage st && hasProcessedRepositories st)
     && is_document_ready (document w)
  then Listeners.call (document w)
  else Idle.
Proof.
  destruct (onView w) eqn:Hw.
  - destruct (isOnRepositoriesPage st && hasProcessedRepositories st) eqn:Hst.
    + apply andb_true_iff in Hst as [Hon Hp].
      now rewrite checkPage_done.
    + rewrite checkPage_pending by assumption. unfold Listeners.call.
      cbn [andb negb].
      destruct (is_document_ready (document w)); [|reflexivity].
      destruct (processRepositories (document w)); reflexivity.
  - now rewrite checkPage_off.
Qed.

(** Whether the arrival is processed after a call of [checkPage]. *)
Lemma checkPage_processed (st : ViewState) (w : Window) :
  isOnRepositoriesPage (fst (checkPage st w))
  && hasProcessedRepositories (fst (checkPage st w)) =
  onView w
  && ((isOnRepositoriesPage st && hasProcessedRepositories st) || completes w).
Proof.
  destruct (onView w) eqn:Hw.
  - destruct (isOnRepositoriesPage st && hasProcessedRepositories st) eqn:Hst.
    + rewrite checkPage_done; [exact Hst|assumption|..];
        apply andb_true_iff in Hst; tauto.
    + rewrite checkPage_pending by assumption. unfold completes.
      destruct (is_document_ready (document w)); [|reflexivity].
      destruct (processRepositories (document w)); reflexivity.
  - now rewrite checkPage_off.
Qed.

Lemma trailingOn_snoc (pre : list Window) (w : Window) :
  trailingOn (pre ++ [w]) = if onView w then trailingOn pre ++ [w] else [].
Proof.
  unfold trailingOn. rewrite rev_app_distr. cbn [rev app whileOn].
  now destruct (onView w).
Qed.

(** The arrival is processed exactly when a tick of the stay that is going
    on has completed. *)
Lemma processed_after (pre : list Window) :
  isOnRepositoriesPage (fst (startChecking initialState pre))
  && hasProcessedRepositories (fst (startChecking initialState pre))
  = existsb completes (trailingOn pre).
Proof.
  induction pre as [|w pre IH] using rev_ind; [reflexivity|].
  rewrite startChecking_app. cbn [fst startChecking].
  destruct (checkPage (fst (startChecking initialState pre)) w) as [st1 o] eqn:E.
  cbn [fst].
  replace st1 with (fst (checkPage (fst (startChecking initialState pre)) w))
    by now rewrite E.
  rewrite checkPage_processed, IH, trailingOn_snoc.
  destruct (onView w); [|reflexivity].
  rewrite existsb_app. cbn [existsb andb]. now rewrite orb_false_r.
Qed.

End Ticks.

(** X9: the monitor calls the pipeline only at a tick whose location is the
    target view and whose document passes the probe. *)
Theorem pipeline_called_only_when_ready_on_view
  (st : ViewState) (ticks : list Window) (i : nat) (o : Outcome) :
  nth_error (snd (startChecking st ticks)) i = Some o ->
  isCall o = true ->
  exists w,
    nth_error ticks i = Some w
    /\ onView w = true
    /\ is_document_ready (document w) = true
    /\ o = Listeners.call (document w).
Proof.
  revert st i. induction ticks as [|w ticks IH]; intros st i Hi Ho.
  - destruct i; discriminate.
  - rewrite startChecking_cons in Hi. destruct i as [|i].
    + cbn in Hi. inversion Hi; subst o. exists w. split; [reflexivity|].
      rewrite checkPage_outcome in *.
      destruct (onView w); [|discriminate].
      destruct (negb _); [|discriminate].
      destruct (is_document_ready (document w)); [|discriminate].
      auto.
    + cbn [nth_error] in *. exact (IH _ _ Hi Ho).
Qed.

Lemma pipeline_called_only_when_ready_on_view_witness :
  exists w,
    nth_error [arrive; ready] 1 = Some w
    /\ onView w = true
    /\ is_document_ready (document w) = true
    /\ Listeners.call scenario = Listeners.call (document w).
Proof.
  apply (pipeline_called_only_when_ready_on_view initialState [arrive; ready] 1
           (Listeners.call scenario)); reflexivity.
Defined.

(** X10: after every tick the flag [isOnRepositoriesPage] says whether the
    location of that tick is the target view. *)
Theorem view_flag_follows_location (st : ViewState) (ticks : list Window) (w : Window) :
  isOnRepositoriesPage (fst (startChecking st (ticks ++ [w]))) = onView w.
Proof.
  rewrite startChecking_app. cbn [fst startChecking].
  destruct (checkPage (fst (startChecking st ticks)) w) as [st1 o] eqn:E.
  cbn [fst]. replace st1 with (fst (checkPage (fst (startChecking st ticks)) w))
    by now rewrite E.
  apply checkPage_on.
Qed.

(** X11: from the start, the outcome of every tick is known from the ticks
    before it: the pipeline is called exactly at a tick on the view whose
    document passes the probe when no earlier tick of the same stay has
    completed; so an arrival is processed at its first ready tick. *)
Theorem pipeline_called_at_first_ready_tick (pre post : list Window) (w : Window) :
  nth_error (snd (startChecking initialState (pre ++ w :: post))) (List.length pre)
  = Some (if onView w
             && negb (existsb completes (trailingOn pre))
             && is_document_ready (document w)
          then Listeners.call (document w)
          else Idle).
Proof.
  rewrite startChecking_app. cbn [snd].
  rewrite nth_error_app2 by (rewrite startChecking_length; lia).
  rewrite startChecking_length, Nat.sub_diag, startChecking_cons.
  cbn [nth_error]. now rewrite checkPage_outcome, processed_after.
Qed.

(** X12: while the pipeline throws it is called again at every tick: the
    flag of the processing is set only after it returns. *)
Theorem throwing_pipeline_called_at_every_tick
  (st : ViewState) (w : Window) (e : Exception) (n : nat) :
  onView w = true ->
  is_document_ready (document w) = true ->
  processRepositories (document w) = Throw e ->
  isOnRepositoriesPage st && hasProcessedRepositories st = false ->
  snd (startChecking st (repeat w n)) = repeat (Threw e) n.
Proof.
  intros Hw Hready Hthrow. revert st.
  induction n as [|n IH]; intros st Hst; [reflexivity|].
  cbn [repeat]. rewrite startChecking_cons.
  rewrite checkPage_pending by assumption. rewrite Hready, Hthrow.
  cbn [fst snd]. f_equal. apply IH. reflexivity.
Qed.

Lemma throwing_pipeline_called_at_every_tick_witness :
  snd (startChecking initialState
         (repeat (mkWindow repositoriesUrl constructorPage) 5))
  = repeat (Threw TypeError) 5.
Proof.
  apply (throwing_pipeline_called_at_every_tick initialState
           (mkWindow repositoriesUrl constructorPage) TypeError 5); reflexivity.
Defined.

(** ** The location of the target view *)

Section Includes.

Lemma prefix_append (t s : string) :
  String.prefix t s = true <-> exists b, s = (t ++ b)%string.
Proof.
  revert s. induction t as [|a t IH]; intros s.
  - destruct s; cbn; split; eauto.
  - destruct s as [|b s]; cbn.
    + split; [discriminate|]. intros [x Hx]. discriminate.
    + destruct (ascii_dec a b) as [->|Hne].
      * rewrite IH. split; intros [x Hx]; exists x; congruence.
      * split; [discriminate|]. intros [x Hx]. congruence.
Qed.

Lemma includes_append (s t : string) :
  JS.includes s t = true <-> exists a b, s = (a ++ t ++ b)%string.
Proof.
  induction s as [|c s IH]; cbn [JS.includes]; rewrite orb_true_iff, prefix_append.
  - split.
    + intros [[b Hb]|H]; [|discriminate]. exists EmptyString, b. exact Hb.
    + intros [a [b H]]. left. destruct a; [eauto|discriminate].
  - rewrite IH. split.
    + intros [[b Hb]|[a [b H]]].
      * exists EmptyString, b. exact Hb.
      * exists (String c a), b. cbn. congruence.
    + intros [a [b H]]. destruct a as [|c' a].
      * left. eauto.
      * right. cbn in H. exists a, b. congruence.
Qed.

End Includes.

(** X13: a tick counts as on the target view exactly when its location
    holds [/repositories] somewhere, whatever comes before and after. *)
Theorem onView_iff (w : Window) :
  onView w = true <->
  exists before after, href w = (before ++ "/repositories" ++ after)%string.
Proof. apply includes_append. Qed.

Lemma onView_iff_witness :
  onView (mkWindow "https://github.com/acme/repositories-archive/issues"
                   (loading [])) = true.
Proof.
  apply (proj2 (onView_iff (mkWindow
           "https://github.com/acme/repositories-archive/issues" (loading [])))).
  exists "https://github.com/acme"%string, "-archive/issues"%string. reflexivity.
Defined.

(** ** The revision with the listeners *)

Section Intervals.

Import Listeners.

Lemma run_cons (t : Timers) (e : Event) (events : list Event) :
  run t (e :: events) =
  (fst (run (fst (dispatch t e)) events),
   snd (dispatch t e) :: snd (run (fst (dispatch t e)) events)).
Proof.
  cbn [run]. destruct (dispatch t e) as [t1 o]. cbn [fst snd].
  now destruct (run t1 events).
Qed.

Lemma call_isCall (d : Document) : isCall (call d) = true.
Proof. unfold call. now destruct (processRepositories d). Qed.

Lemma remove_NoDup (x : nat) (l : list nat) :
  NoDup l -> NoDup (List.remove Nat.eq_dec x l).
Proof.
  induction l as [|y l IH]; intros H; [constructor|].
  inversion H; subst. cbn [List.remove].
  destruct (Nat.eq_dec x y); [auto|].
  constructor; [|auto]. intros Hin. apply in_remove in Hin. tauto.
Qed.

Lemma remove_length (x : nat) (l : list nat) :
  NoDup l -> In x l -> S (List.length (List.remove Nat.eq_dec x l)) = List.length l.
Proof.
  induction l as [|y l IH]; intros Hnd Hin; [destruct Hin|].
  inversion Hnd; subst. cbn [List.remove].
  destruct (Nat.eq_dec x y) as [->|Hne].
  - now rewrite notin_remove.
  - cbn [List.length]. f_equal. apply IH; [assumption|].
    destruct Hin; [congruence|assumption].
Qed.

Lemma active_In (i : nat) (l : list nat) :
  existsb (Nat.eqb i) l = true <-> In i l.
Proof.
  rewrite existsb_exists. split.
  - intros [x [Hx E]]. apply Nat.eqb_eq in E. now subst.
  - intros H. exists i. split; [assumption|apply Nat.eqb_refl].
Qed.

Lemma dispatch_ok (t : Timers) (e : Event) :
  timersOk t -> timersOk (fst (dispatch t e)).
Proof.
  intros [Hnd Hlt].
  assert (Hset : timersOk (setInterval t)).
  { split; cbn.
    - apply NoDup_app; [assumption|repeat constructor; simpl; tauto|].
      intros i Hi [<-|[]]. apply Hlt in Hi. lia.
    - intros i Hi. apply in_app_or in Hi as [Hi|[<-|[]]]; [apply Hlt in Hi|]; lia. }
  destruct e as [d| | | |i d]; cbn [dispatch fst]; try assumption.
  - now split.
  - destruct (existsb (Nat.eqb i) (active t)); [|now split].
    unfold poll. destruct (is_document_ready d); [|now split].
    split; cbn.
    + now apply remove_NoDup.
    + intros j Hj. apply in_remove in Hj. apply Hlt. tauto.
Qed.

(** The count that every event keeps: calls made and intervals running
    against loads and intervals started. *)
Lemma dispatch_balance (t : Timers) (e : Event) :
  timersOk t ->
  (if isCall (snd (dispatch t e)) then 1 else 0)
  + List.length (active (fst (dispatch t e)))
  = (if isLoad e then 1 else 0) + (if startsInterval e then 1 else 0)
    + List.length (active t).
Proof.
  intros [Hnd Hlt].
  destruct e as [d| | | |i d]; cbn [dispatch fst snd isLoad startsInterval isCall];
    try (cbn; rewrite length_app; cbn; lia).
  - now rewrite call_isCall.
  - destruct (existsb (Nat.eqb i) (active t)) eqn:E; [|reflexivity].
    apply active_In in E. unfold poll.
    destruct (is_document_ready d); [|reflexivity].
    cbn [fst snd clearInterval active]. rewrite call_isCall.
    rewrite <- (remove_length i (active t) Hnd E). lia.
Qed.

(** An interval that is cleared makes no call any more. *)
Lemma cleared_never_calls (intervalId : nat) (events : list Event) :
  forall t,
  ~ In intervalId (active t) ->
  intervalId < nextId t ->
  filter (callOf intervalId) (combine events (snd (run t events))) = [].
Proof.
  induction events as [|e events IH]; intros t Hout Hlt; [reflexivity|].
  rewrite run_cons. cbn [snd combine filter].
  assert (Hhead : callOf intervalId (e, snd (dispatch t e)) = false).
  { unfold callOf. cbn [fst snd]. destruct e as [d| | | |i d]; try reflexivity.
    destruct (Nat.eqb_spec i intervalId) as [->|Hne]; [|reflexivity].
    cbn [dispatch].
    destruct (existsb (Nat.eqb intervalId) (active t)) eqn:E; [|reflexivity].
    apply active_In in E. contradiction. }
  rewrite Hhead. apply IH.
  - destruct e as [d| | | |i d]; cbn [dispatch fst]; try assumption;
      try (cbn; intros Hin; apply in_app_or in Hin as [Hin|[Hin|[]]];
           [contradiction|lia]).
    destruct (existsb (Nat.eqb i) (active t)); [|assumption].
    unfold poll. destruct (is_document_ready d); [|assumption].
    cbn. intros Hin. apply in_remove in Hin. tauto.
  - destruct e as [d| | | |i d]; cbn [dispatch fst]; try assumption;
      try (cbn; lia).
    destruct (existsb (Nat.eqb i) (active t)); [|assumption].
    unfold poll. now destruct (is_document_ready d).
Qed.



End Intervals.

(** X14: in the revision with the listeners every interval that a history
    event starts is either still running or has called the pipeline, and
    every load calls it: calls and running intervals add up to the loads,
    the history events and the intervals running at the start. *)
Theorem intervals_run_until_they_call
  (t : Listeners.Timers) (events : list Listeners.Event) :
  timersOk t ->
  calls (snd (Listeners.run t events))
  + List.length (Listeners.active (fst (Listeners.run t events)))
  = List.length (filter isLoad events)
    + List.length (filter startsInterval events)
    + List.length (Listeners.active t).
Proof.
  revert t. induction events as [|e events IH]; intros t Hok; [reflexivity|].
  rewrite run_cons. cbn [fst snd]. unfold calls in *. cbn [filter].
  pose proof (dispatch_balance t e Hok) as Hb.
  pose proof (IH _ (dispatch_ok t e Hok)) as Hr.
  destruct (isCall (snd (Listeners.dispatch t e))), (isLoad e), (startsInterval e);
    cbn [List.length] in *; lia.
Qed.

Lemma intervals_run_until_they_call_witness :
  calls (snd (Listeners.run (Listeners.mkTimers 1 [])
                [Listeners.PushState; Listeners.Timer 1 scenario]))
  + List.length (Listeners.active
                   (fst (Listeners.run (Listeners.mkTimers 1 [])
                           [Listeners.PushState; Listeners.Timer 1 scenario])))
  = List.length (filter isLoad [Listeners.PushState; Listeners.Timer 1 scenario])
    + List.length (filter startsInterval
                     [Listeners.PushState; Listeners.Timer 1 scenario])
    + List.length (Listeners.active (Listeners.mkTimers 1 [])).
Proof.
  apply (intervals_run_until_they_call (Listeners.mkTimers 1 [])).
  split; [constructor|intros i []].
Defined.

(** X15: an interval calls the pipeline at most once, also when the pipeline
    throws: it clears itself before the call. *)
Theorem interval_calls_at_most_once
  (t : Listeners.Timers) (events : list Listeners.Event) (intervalId : nat) :
  timersOk t ->
  List.length (filter (callOf intervalId)
                 (combine events (snd (Listeners.run t events)))) <= 1.
Proof.
  revert t. induction events as [|e events IH]; intros t Hok; [cbn; lia|].
  rewrite run_cons. cbn [snd combine filter].
  pose proof (IH _ (dispatch_ok t e Hok)) as Hr.
  destruct (callOf intervalId (e, snd (Listeners.dispatch t e))) eqn:E; [|exact Hr].
  unfold callOf in E. cbn [fst snd] in E.
  destruct e as [d| | | |i d]; try discriminate.
  apply andb_true_iff in E as [Ei Ec]. apply Nat.eqb_eq in Ei. subst i.
  cbn [Listeners.dispatch] in *.
  destruct (existsb (Nat.eqb intervalId) (Listeners.active t)) eqn:Ea;
    [|discriminate].
  apply active_In in Ea. unfold Listeners.poll in *.
  destruct (is_document_ready d); [|discriminate].
  cbn [fst]. rewrite cleared_never_calls; [cbn; lia| |].
  - cbn. apply remove_In.
  - cbn. destruct Hok as [_ Hlt]. now apply Hlt.
Qed.

Lemma interval_calls_at_most_once_witness :
  List.length
    (filter (callOf 1)
       (combine [Listeners.PopState;
                 Listeners.Timer 1 constructorPage;
                 Listeners.Timer 1 constructorPage]
          (snd (Listeners.run (Listeners.mkTimers 1 [])
                  [Listeners.PopState;
                   Listeners.Timer 1 constructorPage;
                   Listeners.Timer 1 constructorPage])))) <= 1.
Proof.
  apply (interval_calls_at_most_once (Listeners.mkTimers 1 [])).
  split; [constructor|intros i []].
Defined.



(** ** The first revision *)

Section FirstRevision.

Lemma ContentJs_createMenu_small (t : Tree) (e : Entry) :
  multi e = false -> ContentJs.createMenu t e = t.
Proof.
  destruct e as [k nodes]. unfold multi, ContentJs.createMenu. cbn [snd].
  destruct (List.length nodes <? 2); [reflexivity|discriminate].
Qed.

Lemma ContentJs_createMenu_fresh (spans : list (option string)) (c : list Element)
  (e : Entry) :
  multi e = true ->
  NoDup (snd e) ->
  (forall n, In n (snd e) -> ~ In n (querySelectorAll_li c)) ->
  ContentJs.createMenu (spans, c) e = (spans, c ++ [menuOf e]).
Proof.
  destruct e as [k nodes]. unfold multi, ContentJs.createMenu, menuOf.
  cbn [fst snd]. intros Hm Hnd Hc.
  destruct (List.length nodes <? 2); [discriminate|].
  rewrite moveInto_fresh by assumption. reflexivity.
Qed.

Lemma ContentJs_createCollapsibleMenu_fresh (E : list Entry) :
  forall spans c,
  NoDup (List.concat (map snd (filter multi E))) ->
  (forall n, In n (List.concat (map snd (filter multi E))) ->
             ~ In n (querySelectorAll_li c)) ->
  fold_left ContentJs.createMenu E (spans, c) =
  (spans, c ++ map menuOf (filter multi E)).
Proof.
  induction E as [|e E IH]; intros spans c Hnd Hc.
  - cbn. now rewrite app_nil_r.
  - cbn [fold_left filter] in *.
    destruct (multi e) eqn:Em.
    + cbn [map List.concat] in *.
      rewrite ContentJs_createMenu_fresh;
        [|assumption|now apply NoDup_app_remove_r in Hnd|].
      * rewrite IH.
        -- now rewrite <- app_assoc.
        -- now apply NoDup_app_remove_l in Hnd.
        -- intros n Hn. rewrite querySelectorAll_li_app, in_app_iff.
           cbn [querySelectorAll_li flat_map menuOf]. rewrite app_nil_r.
           intros [H|H].
           ++ apply (Hc n); [|assumption]. apply in_or_app. now right.
           ++ exact (NoDup_app_disjoint _ _ Hnd n H Hn).
      * intros n Hn. apply Hc. apply in_or_app. now left.
    + rewrite ContentJs_createMenu_small by assumption. now apply IH.
Qed.

Variables (d : Document) (c : list Element) (g : Groups).

Hypothesis container_found : listView d = Some c.
Hypothesis items_distinct : NoDup (querySelectorAll_li c).
Hypothesis grouped : groupRepositoriesByPrefix (getRepositoriesData d c) = Normal g.

(** The document after the rewrite of the first revision. *)
Lemma ContentJs_processRepositories_rewrites :
  ContentJs.processRepositories d =
  Normal {| titleSpans := titleSpans d;
            listView :=
              Some (map Li (map node (orphanData (getRepositoriesData d c)))
                    ++ map menuOf (filter multi (Object_entries g))) |}.
Proof.
  unfold ContentJs.processRepositories, getRepositoriesContainer.
  rewrite container_found, grouped. cbn [bind].
  rewrite (filterC_pure _ (fun r => List.length
                                      (members (key r) (getRepositoriesData d c)) <? 2)).
  2:{ intros r Hr. fold (key r). now rewrite (groups_get _ _ grouped r Hr). }
  cbn [bind]. fold (orphanData (getRepositoriesData d c)).
  rewrite appendChild_fresh; [|apply kept_nodes_distinct, extracted_NoDup;
                                assumption|intros n _ []].
  cbn [app]. unfold ContentJs.createCollapsibleMenu.
  rewrite ContentJs_createCollapsibleMenu_fresh.
  - reflexivity.
  - apply NoDup_concat_filter.
    exact (group_nodes_NoDup d c g items_distinct grouped).
  - intros n Hn. rewrite querySelectorAll_li_items.
    exact (menu_nodes_not_orphans d c g items_distinct grouped n Hn).
Qed.

End FirstRevision.

Section ItemsFirst.

Lemma sectionsOf_items_menus (l : list Node) (M : list Entry) :
  sectionsOf (map Li l ++ map menuOf M) = map menuOf M.
Proof.
  unfold sectionsOf. rewrite filter_app.
  assert (H1 : filter isMenu (map menuOf M) = map menuOf M).
  { induction M as [|e M IH]; simpl; congruence. }
  assert (H2 : filter isMenu (map Li l) = []).
  { induction l as [|n l IH]; simpl; congruence. }
  now rewrite H1, H2.
Qed.

Lemma itemsOf_items_menus (l : list Node) (M : list Entry) :
  itemsOf (map Li l ++ map menuOf M) = l.
Proof.
  unfold itemsOf. rewrite flat_map_app.
  assert (H1 : flat_map (fun e => match e with Li n => [n] | MenuContainer _ _ _ => [] end)
                        (map menuOf M) = []).
  { induction M as [|e M IH]; simpl; congruence. }
  rewrite H1, app_nil_r. induction l as [|n l IH]; simpl; congruence.
Qed.

End ItemsFirst.

(** X17: the first revision leaves every title as it is and puts the menus
    after the items: every item of the container comes before every menu,
    and the menus follow the enumeration of the groups. *)
Theorem first_revision_appends_menus_in_order
  (d : Document) (c : list Element) (g : Groups) :
  listView d = Some c ->
  NoDup (querySelectorAll_li c) ->
  groupRepositoriesByPrefix (getRepositoriesData d c) = Normal g ->
  exists d' children,
    ContentJs.processRepositories d = Normal d'
    /\ listView d' = Some children
    /\ titleSpans d' = titleSpans d
    /\ (forall i j n t disp content,
          nth_error children i = Some (Li n) ->
          nth_error children j = Some (MenuContainer t disp content) ->
          i < j)
    /\ sectionsOf children = map menuOf (filter multi (Object_entries g)).
Proof.
  intros Hc Hnd Hg.
  eexists. eexists.
  split; [exact (ContentJs_processRepositories_rewrites d c g Hc Hnd Hg)|].
  cbn [listView titleSpans]. split; [reflexivity|]. split; [reflexivity|].
  split; [|apply sectionsOf_items_menus].
  intros i j n t disp content Hi Hj.
  set (O := map Li (map node (orphanData (getRepositoriesData d c)))) in *.
  assert (Hlen : List.length O <= j).
  { destruct (Nat.le_gt_cases (List.length O) j) as [H|H]; [assumption|].
    rewrite nth_error_app1 in Hj by assumption. unfold O in Hj.
    rewrite nth_error_map in Hj.
    destruct (nth_error (map node (orphanData (getRepositoriesData d c))) j);
      discriminate. }
  destruct (Nat.le_gt_cases (List.length O) i) as [H|H]; [|lia].
  rewrite nth_error_app2 in Hi by assumption.
  rewrite nth_error_map in Hi.
  destruct (nth_error (filter multi (Object_entries g)) (i - List.length O));
    discriminate.
Qed.

Lemma first_revision_appends_menus_in_order_witness :
  exists d' children,
    ContentJs.processRepositories scenario = Normal d'
    /\ listView d' = Some children
    /\ titleSpans d' = titleSpans scenario
    /\ (forall i j n t disp content,
          nth_error children i = Some (Li n) ->
          nth_error children j = Some (MenuContainer t disp content) ->
          i < j)
    /\ sectionsOf children = map menuOf (filter multi (Object_entries scenarioGroups)).
Proof.
  apply (first_revision_appends_menus_in_order scenario (map Li (seq 0 6))
           scenarioGroups).
  - reflexivity.
  - apply (page_items_distinct [None; None; None; None; None; None]).
  - reflexivity.
Defined.

(** X18: the two revisions build the same menus around the same items: the
    last one has the menus of the first in reverse order, the same items in
    the same order, and differs from it only there and in the titles of
    the members. *)
Theorem revisions_build_the_same_menus
  (d : Document) (c : list Element) (g : Groups) :
  listView d = Some c ->
  NoDup (querySelectorAll_li c) ->
  groupRepositoriesByPrefix (getRepositoriesData d c) = Normal g ->
  exists first last children1 children2,
    ContentJs.processRepositories d = Normal first
    /\ processRepositories d = Normal last
    /\ listView first = Some children1
    /\ listView last = Some children2
    /\ children1 = map Li (itemsOf children1) ++ sectionsOf children1
    /\ children2 = sectionsOf children2 ++ map Li (itemsOf children2)
    /\ itemsOf children2 = itemsOf children1
    /\ sectionsOf children2 = rev (sectionsOf children1).
Proof.
  intros Hc Hnd Hg.
  eexists. eexists. eexists. eexists.
  split; [exact (ContentJs_processRepositories_rewrites d c g Hc Hnd Hg)|].
  split; [exact (processRepositories_rewrites d c g Hc Hnd Hg)|].
  cbn [listView]. split; [reflexivity|]. split; [reflexivity|].
  rewrite <- map_rev.
  rewrite !sectionsOf_items_menus, !itemsOf_items_menus,
    !sectionsOf_menus_items, !itemsOf_menus_items.
  repeat split; try reflexivity. apply map_rev.
Qed.

Lemma revisions_build_the_same_menus_witness :
  exists first last children1 children2,
    ContentJs.processRepositories scenario = Normal first
    /\ processRepositories scenario = Normal last
    /\ listView first = Some children1
    /\ listView last = Some children2
    /\ children1 = map Li (itemsOf children1) ++ sectionsOf children1
    /\ children2 = sectionsOf children2 ++ map Li (itemsOf children2)
    /\ itemsOf children2 = itemsOf children1
    /\ sectionsOf children2 = rev (sectionsOf children1).
Proof.
  apply (revisions_build_the_same_menus scenario (map Li (seq 0 6)) scenarioGroups).
  - reflexivity.
  - apply (page_items_distinct [None; None; None; None; None; None]).
  - reflexivity.
Defined.
